(** * Product-listing utilities: a shallow embedding and its properties

    The development embeds the pure helpers of [product_listing_utils.py]
    (validation of product and listing dictionaries, the tolerant JSON
    extractor [JSONParser], price formatting, statistics, batching, the
    dictionary and text helpers, the progress line) and the sibling
    extractor [JSONExtractor.extract] and the check [ProductInfo.validate]
    of [product_listing_refactored.py], together with the parts of the Python
    run time they rest on: dynamically typed values, truthiness, [len],
    [float], binary64 arithmetic, [json.loads] and [re.search].

    Conventions.
    - A Python [str] is a list of Unicode code points ([text]).
    - A Python [dict] with string keys is a [gmap text _].
    - A call that may raise returns [exc A]: [Ok a] or [Raise e].
    - A Python [float] is an IEEE-754 binary64 value ([spec_float] with
      precision 53 and maximal exponent 1024).
    - Integers are unbounded ([Z]).  Converting an int to or from its
      decimal text raises a [ValueError] beyond [max_str_digits] digits,
      the interpreter's default of 4300.
    - The interpreter's recursion limit depends on the state of the
      interpreter at the call.  [json.loads] takes it as a parameter
      [room]: the number of arrays and objects that can be open inside the
      outermost one before a [RecursionError] is raised.  The text of a
      list or a dictionary, which can fail in the same ways, is left to a
      parameter of the validation functions ([container_error]). *)

From Stdlib Require Import ZArith NArith List String Ascii Bool Lia.
From Stdlib Require Import Floats.SpecFloat.
From stdpp Require Import base option list gmap.

Local Open Scope Z_scope.
#[local] Set Warnings "-register-all".

(** ** Characters and strings *)

Module Py.

Definition char := N.
Abbreviation text := (list N).

(** A string literal of the source, as a list of code points (ASCII only). *)
Definition str (s : string) : text :=
  map N_of_ascii (list_ascii_of_string s).

Definition chr (a : ascii) : char := N_of_ascii a.

(** [c.isspace()], which is also what [\s] matches in a [str] pattern. *)
Definition isspace (c : char) : bool :=
  ((9 <=? c) && (c <=? 13) || (28 <=? c) && (c <=? 32)
   || (c =? 133) || (c =? 160) || (c =? 5760)
   || (8192 <=? c) && (c <=? 8202)
   || (c =? 8232) || (c =? 8233) || (c =? 8239) || (c =? 8287)
   || (c =? 12288))%N.

(** [s.lstrip()], [s.rstrip()] and [s.strip()]. *)
Fixpoint lstrip (s : text) : text :=
  match s with
  | c :: s' => if isspace c then lstrip s' else s
  | [] => []
  end.

Definition rstrip (s : text) : text := rev (lstrip (rev s)).

Definition strip (s : text) : text := rstrip (lstrip s).

(** ** Exceptions *)

Inductive exception :=
| TypeError
| ValueError
| OverflowError
| ZeroDivisionError
| KeyError
| RecursionError
| JSONDecodeError.

Inductive exc (A : Type) :=
| Ok (a : A)
| Raise (e : exception).
Arguments Ok {A} a.
Arguments Raise {A} e.

#[export] Instance exc_ret : MRet exc := fun _ a => Ok a.
#[export] Instance exc_bind : MBind exc := fun _ _ k m =>
  match m with
  | Ok a => k a
  | Raise e => Raise e
  end.

Definition raises {A} (m : exc A) : bool :=
  match m with
  | Ok _ => false
  | Raise _ => true
  end.

(** ** Floats: binary64 *)

Definition prec : Z := 53.
Definition emax : Z := 1024.

Abbreviation float := spec_float.

Definition fzero : float := S754_zero false.

Definition fadd : float -> float -> float := SFadd prec emax.
Definition fdiv : float -> float -> float := SFdiv prec emax.
Definition fopp : float -> float := SFopp.
Definition fltb : float -> float -> bool := SFltb.
Definition feqb : float -> float -> bool := SFeqb.

(** The binary64 value nearest to the integer [z] (ties to even); an
    infinity when [z] is out of range. *)
Definition round_Z (z : Z) : float := binary_normalize prec emax z 0 false.

(** The binary64 value nearest to the rational [n / d], for [0 < d]: the
    quotient is computed with at least 55 significant bits, and a sticky
    bit records a non-zero remainder, so that rounding it rounds [n / d]. *)
Definition round_ratio (n d : Z) : float :=
  let k := Z.max 0 (55 + Z.log2 d - Z.log2 (Z.abs n)) in
  let q := Z.abs n * 2 ^ k / d in
  let sticky := if (Z.abs n * 2 ^ k) mod d =? 0 then 0 else 1 in
  binary_normalize prec emax (Z.sgn n * (2 * q + sticky)) (- k - 1) false.

(** The float a decimal literal denotes: the one nearest to [m * 10 ^ e],
    for [0 <= m]. *)
Definition float_of_decimal (m e : Z) : float :=
  if 0 <=? e then round_ratio (m * 10 ^ e) 1 else round_ratio m (10 ^ (- e)).

Definition is_infinite (f : float) : bool :=
  match f with
  | S754_infinity _ => true
  | _ => false
  end.

(** [float(z)] for an [int]: raises [OverflowError] when [z] is too large. *)
Definition float_of_int (z : Z) : exc float :=
  let f := round_Z z in
  if is_infinite f then Raise OverflowError else Ok f.

(** [a / b] for two [int]s: correctly rounded, [ZeroDivisionError] for a
    zero divisor, [OverflowError] when the quotient is out of range. *)
Definition int_truediv (a b : Z) : exc float :=
  if b =? 0 then Raise ZeroDivisionError
  else
    let f := round_ratio (Z.sgn b * a) (Z.abs b) in
    if is_infinite f then Raise OverflowError else Ok f.

(** ** The limit on the decimal digits of an int

    [int(s)] for a text, [str(z)] for an int and an f-string field that
    holds an int raise a [ValueError] when the number has more than
    [max_str_digits] decimal digits, the sign not counted (the default of
    [sys.int_info]). *)
Definition max_str_digits : Z := 4300.

(** [z] has more than [max_str_digits] digits. *)
Definition too_long (z : Z) : bool := 10 ^ max_str_digits <=? Z.abs z.

(** ** Values *)

Inductive value :=
| VNone
| VBool (b : bool)
| VInt (z : Z)
| VFloat (f : float)
| VStr (s : text)
| VList (l : list value)
| VDict (d : gmap text value).

(** Truth value testing, [bool(v)]. *)
Definition truthy (v : value) : bool :=
  match v with
  | VNone => false
  | VBool b => b
  | VInt z => negb (z =? 0)
  | VFloat f => negb (feqb f fzero)
  | VStr s => negb (Nat.eqb (length s) 0)
  | VList l => negb (Nat.eqb (length l) 0)
  | VDict d => negb (Nat.eqb (size d) 0)
  end.

(** [len(v)]: a [TypeError] for a value that has no length. *)
Definition len (v : value) : exc Z :=
  match v with
  | VStr s => Ok (Z.of_nat (length s))
  | VList l => Ok (Z.of_nat (length l))
  | VDict d => Ok (Z.of_nat (size d))
  | _ => Raise TypeError
  end.

Definition is_str (v : value) : bool :=
  match v with VStr _ => true | _ => false end.

Definition is_list (v : value) : bool :=
  match v with VList _ => true | _ => false end.

End Py.

(** ** [json.loads]

    The decoder of the standard library, as its scanner reads a [str]:
    JSON white space is space, tab, line feed and carriage return; the
    constants [NaN], [Infinity] and [-Infinity] are accepted; strings are
    scanned in strict mode; a number with a fraction or an exponent is a
    float, any other number an int; in an object the last of several equal
    keys wins.  A syntax error is a [JSONDecodeError]; an int literal of
    more than [max_str_digits] digits is a [ValueError]; nesting beyond the
    recursion limit is a [RecursionError]. *)

Module Json.
Import Py.

Definition is_ws (c : char) : bool :=
  ((c =? 32) || (c =? 9) || (c =? 10) || (c =? 13))%N.

Fixpoint skip_ws (s : text) : text :=
  match s with
  | c :: s' => if is_ws c then skip_ws s' else s
  | [] => []
  end.

Definition is_digit (c : char) : bool := ((48 <=? c) && (c <=? 57))%N.

Definition hex_digit (c : char) : option N :=
  if ((48 <=? c) && (c <=? 57))%N then Some (c - 48)%N
  else if ((97 <=? c) && (c <=? 102))%N then Some (c - 87)%N
  else if ((65 <=? c) && (c <=? 70))%N then Some (c - 55)%N
  else None.

Definition hex4 (a b c d : char) : option N :=
  match hex_digit a, hex_digit b, hex_digit c, hex_digit d with
  | Some x, Some y, Some z, Some w => Some (((x * 16 + y) * 16 + z) * 16 + w)%N
  | _, _, _, _ => None
  end.

Definition is_high_surrogate (u : N) : bool := ((55296 <=? u) && (u <=? 56319))%N.
Definition is_low_surrogate (u : N) : bool := ((56320 <=? u) && (u <=? 57343))%N.
Definition join_surrogates (hi lo : N) : N :=
  (65536 + ((hi - 55296) * 1024 + (lo - 56320)))%N.

(** The character a backslash escape other than [\u] stands for. *)
Definition escape (c : char) : option char :=
  if (c =? 34)%N then Some 34%N
  else if (c =? 92)%N then Some 92%N
  else if (c =? 47)%N then Some 47%N
  else if (c =? 98)%N then Some 8%N
  else if (c =? 102)%N then Some 12%N
  else if (c =? 110)%N then Some 10%N
  else if (c =? 114)%N then Some 13%N
  else if (c =? 116)%N then Some 9%N
  else None.

Definition push (c : char) (r : option (text * text)) : option (text * text) :=
  match r with
  | Some (body, rest) => Some (c :: body, rest)
  | None => None
  end.

(** [scanstring s]: [s] starts just after the opening quote; the result is
    the decoded string and the text after the closing quote. *)
Fixpoint scanstring (s : text) : option (text * text) :=
  match s with
  | [] => None
  | c :: s1 =>
    if (c =? 34)%N then Some ([], s1)
    else if (c =? 92)%N then
      match s1 with
      | [] => None
      | e :: s2 =>
        if (e =? 117)%N then
          match s2 with
          | h1 :: h2 :: h3 :: h4 :: s3 =>
            match hex4 h1 h2 h3 h4 with
            | None => None
            | Some u =>
              if is_high_surrogate u then
                match s3 with
                | b :: u' :: k1 :: k2 :: k3 :: k4 :: s4 =>
                  if ((b =? 92) && (u' =? 117))%N then
                    match hex4 k1 k2 k3 k4 with
                    | None => None
                    | Some u2 =>
                      if is_low_surrogate u2
                      then push (join_surrogates u u2) (scanstring s4)
                      else push u (scanstring s3)
                    end
                  else push u (scanstring s3)
                | _ => push u (scanstring s3)
                end
              else push u (scanstring s3)
            end
          | _ => None
          end
        else
          match escape e with
          | Some x => push x (scanstring s2)
          | None => None
          end
      end
    else if (c <=? 31)%N then None
    else push c (scanstring s1)
  end.

Fixpoint span_digits (s : text) : text * text :=
  match s with
  | c :: s' =>
    if is_digit c then let '(ds, r) := span_digits s' in (c :: ds, r)
    else ([], s)
  | [] => ([], [])
  end.

Definition digits_value (ds : text) : Z :=
  fold_left (fun acc c => 10 * acc + (Z.of_N c - 48)) ds 0.

(** [int] applied to the digits of a literal without fraction and
    exponent: a [ValueError] for more than [max_str_digits] digits. *)
Definition int_of_digits (neg : bool) (ds : text) : exc value :=
  if max_str_digits <? Z.of_nat (length ds) then Raise ValueError
  else Ok (VInt (if neg then - digits_value ds else digits_value ds)).

(** A number at the head of [s]: an optional minus sign; then a single
    zero, or a non-zero digit and any digits; then, optionally, a point and
    at least one digit; then, optionally, [e] or [E], an optional sign and
    at least one digit.  The result is the converted number, or the
    exception of the conversion, and the text after the literal. *)
Definition match_number (s : text) : option (exc value * text) :=
  let '(neg, s1) :=
    match s with
    | c :: r => if (c =? 45)%N then (true, r) else (false, s)
    | [] => (false, s)
    end in
  match s1 with
  | [] => None
  | c :: r =>
    let int_part :=
      if (c =? 48)%N then Some ([c], r)
      else if is_digit c then let '(ds, r') := span_digits r in Some (c :: ds, r')
      else None in
    match int_part with
    | None => None
    | Some (ip, s2) =>
      let '(frac, s3) :=
        match s2 with
        | p :: d :: r' =>
          if ((p =? 46)%N && is_digit d)
          then let '(ds, r'') := span_digits r' in (Some (d :: ds), r'')
          else (None, s2)
        | _ => (None, s2)
        end in
      let '(ex, s4) :=
        match s3 with
        | e :: r' =>
          if ((e =? 101) || (e =? 69))%N then
            let '(eneg, r'') :=
              match r' with
              | sg :: x =>
                if (sg =? 45)%N then (true, x)
                else if (sg =? 43)%N then (false, x)
                else (false, r')
              | [] => (false, r')
              end in
            let '(ds, r3) := span_digits r'' in
            match ds with
            | [] => (None, s3)
            | _ => (Some (if eneg then - digits_value ds else digits_value ds), r3)
            end
          else (None, s3)
        | [] => (None, s3)
        end in
      match frac, ex with
      | None, None => Some (int_of_digits neg ip, s4)
      | _, _ =>
        let fd := default [] frac in
        let f := float_of_decimal (digits_value (ip ++ fd))
                   (default 0 ex - Z.of_nat (length fd)) in
        Some (Ok (VFloat (if neg then fopp f else f)), s4)
      end
    end
  end.

(** [starts p s]: the text after the prefix [p] of [s], if [s] starts
    with [p]. *)
Fixpoint starts (p s : text) : option text :=
  match p, s with
  | [], _ => Some s
  | a :: p', b :: s' => if (a =? b)%N then starts p' s' else None
  | _ :: _, [] => None
  end.

Definition constant (name : string) (v : value) (s : text)
    : option (exc value * text) :=
  match starts (str name) s with
  | Some rest => Some (Ok v, rest)
  | None => None
  end.

(** A term that is neither a string, an object nor an array: one of the
    named constants, or else a number. *)
Definition scan_atom (s : text) : option (exc value * text) :=
  match constant "null" VNone s with
  | Some r => Some r
  | None =>
  match constant "true" (VBool true) s with
  | Some r => Some r
  | None =>
  match constant "false" (VBool false) s with
  | Some r => Some r
  | None =>
  match constant "NaN" (VFloat S754_nan) s with
  | Some r => Some r
  | None =>
  match constant "Infinity" (VFloat (S754_infinity false)) s with
  | Some r => Some r
  | None =>
  match constant "-Infinity" (VFloat (S754_infinity true)) s with
  | Some r => Some r
  | None => match_number s
  end end end end end end.

(** What the scanner makes of a text: a value and the rest of the text, a
    syntax error ([Malformed], the [JSONDecodeError] of [json.loads]),
    another exception ([Failed]), or lack of fuel. *)
Inductive outcome :=
| Parsed (v : value) (rest : text)
| Malformed
| Failed (e : exception)
| Exhausted.

Definition of_option (r : option (exc value * text)) : outcome :=
  match r with
  | Some (Ok v, rest) => Parsed v rest
  | Some (Raise e, _) => Failed e
  | None => Malformed
  end.

(** The scanner proper.  [scan_once] reads one JSON term at the head of
    [s]; [parse_array] and [parse_object] read the items of an array or an
    object after the first item's leading white space, [acc] holding the
    items read so far.  Before it enters an array or an object the scanner
    checks the recursion limit: [room] is the number of arrays and objects
    that can still be entered, one inside the other, and a
    [RecursionError] is raised when there is none.  The recursion is on
    [fuel]; [json.loads] supplies enough of it ([loads_fuel]). *)
Fixpoint scan_once (fuel room : nat) (s : text) : outcome :=
  match fuel with
  | O => Exhausted
  | S fuel' =>
    match s with
    | [] => Malformed
    | c :: s' =>
      if (c =? 34)%N then
        match scanstring s' with
        | Some (body, rest) => Parsed (VStr body) rest
        | None => Malformed
        end
      else if (c =? 123)%N then
        match room with
        | O => Failed RecursionError
        | S room' =>
          match skip_ws s' with
          | c1 :: r1 =>
            if (c1 =? 125)%N then Parsed (VDict ∅) r1
            else parse_object fuel' room' (c1 :: r1) ∅
          | [] => Malformed
          end
        end
      else if (c =? 91)%N then
        match room with
        | O => Failed RecursionError
        | S room' =>
          match skip_ws s' with
          | c1 :: r1 =>
            if (c1 =? 93)%N then Parsed (VList []) r1
            else parse_array fuel' room' (c1 :: r1) []
          | [] => Malformed
          end
        end
      else of_option (scan_atom s)
    end
  end

with parse_array (fuel room : nat) (s : text) (acc : list value) : outcome :=
  match fuel with
  | O => Exhausted
  | S fuel' =>
    match scan_once fuel' room s with
    | Parsed v rest =>
      match skip_ws rest with
      | c :: r =>
        if (c =? 93)%N then Parsed (VList (rev (v :: acc))) r
        else if (c =? 44)%N then parse_array fuel' room (skip_ws r) (v :: acc)
        else Malformed
      | [] => Malformed
      end
    | other => other
    end
  end

with parse_object (fuel room : nat) (s : text) (acc : gmap text value)
    : outcome :=
  match fuel with
  | O => Exhausted
  | S fuel' =>
    match s with
    | q :: s1 =>
      if (q =? 34)%N then
        match scanstring s1 with
        | Some (key, s2) =>
          match skip_ws s2 with
          | colon :: s3 =>
            if (colon =? 58)%N then
              match scan_once fuel' room (skip_ws s3) with
              | Parsed v rest =>
                match skip_ws rest with
                | c :: r =>
                  if (c =? 125)%N then Parsed (VDict (<[key := v]> acc)) r
                  else if (c =? 44)%N
                  then parse_object fuel' room (skip_ws r) (<[key := v]> acc)
                  else Malformed
                | [] => Malformed
                end
              | other => other
              end
            else Malformed
          | [] => Malformed
          end
        | None => Malformed
        end
      else Malformed
    | [] => Malformed
    end
  end.

Definition loads_fuel (s : text) : nat := 2 * length s + 2.

(** [json.loads(s)] for a [str], called where the outermost array or
    object can be entered and [room] more inside it. *)
Definition loads (room : nat) (s : text) : exc value :=
  match starts [65279%N] s with
  | Some _ => Raise JSONDecodeError
  | None =>
    match scan_once (loads_fuel s) (S room) (skip_ws s) with
    | Parsed v rest =>
      match skip_ws rest with
      | [] => Ok v
      | _ :: _ => Raise JSONDecodeError
      end
    | Failed e => Raise e
    | Malformed | Exhausted => Raise JSONDecodeError
    end
  end.

End Json.

(** ** [re.search]

    The three patterns of the extractors are sequences of literal
    characters, [\s*] (greedy), [.*?] (lazy; with [re.DOTALL] the dot
    matches every character) and the parentheses of group 1.  The matcher
    is the backtracking matcher of the [re] module: alternatives are tried
    in priority order and the first overall match is taken. *)

Module Re.
Import Py.

Inductive item :=
| Lit (c : char)
| Spaces
| AnyLazy
| GroupOpen
| GroupClose.

Abbreviation pattern := (list item).

(** [match_here p s opened g]: match [p] at the head of [s]; [opened] is
    the text from where group 1 opened, [g] the text of group 1 once it
    has closed.  The result is the text of group 1. *)
Fixpoint match_here (p : pattern) : text -> text -> text -> option text :=
  match p with
  | [] => fun _ _ g => Some g
  | Lit c :: p' => fun s opened g =>
    match s with
    | a :: s' => if (a =? c)%N then match_here p' s' opened g else None
    | [] => None
    end
  | Spaces :: p' =>
    fix greedy (s opened g : text) {struct s} : option text :=
      match s with
      | a :: s' =>
        if isspace a then
          match greedy s' opened g with
          | Some r => Some r
          | None => match_here p' s opened g
          end
        else match_here p' s opened g
      | [] => match_here p' s opened g
      end
  | AnyLazy :: p' =>
    fix lazy (s opened g : text) {struct s} : option text :=
      match match_here p' s opened g with
      | Some r => Some r
      | None =>
        match s with
        | _ :: s' => lazy s' opened g
        | [] => None
        end
      end
  | GroupOpen :: p' => fun s _ g => match_here p' s s g
  | GroupClose :: p' => fun s opened g =>
    match_here p' s opened (take (length opened - length s) opened)
  end.

(** [re.search(p, s, re.DOTALL)]: the leftmost match; [None] when there is
    none, else [Some] of the match's [group(1)]. *)
Fixpoint search (p : pattern) (s : text) : option text :=
  match match_here p s [] [] with
  | Some g => Some g
  | None =>
    match s with
    | _ :: s' => search p s'
    | [] => None
    end
  end.

Definition lits (s : string) : pattern := map Lit (str s).

(** The object of group 1: an opening brace, as few characters as
    possible, a closing brace. *)
Definition braced : pattern :=
  [GroupOpen; Lit 123%N; AnyLazy; Lit 125%N; GroupClose].

(** The source's list [patterns], the same in both extractors. *)
Definition fenced_json : pattern :=
  lits "```json" ++ [Spaces] ++ braced ++ [Spaces] ++ lits "```".
Definition fenced : pattern :=
  lits "```" ++ [Spaces] ++ braced ++ [Spaces] ++ lits "```".
Definition patterns : list pattern := [fenced_json; fenced; braced].

(** The literal characters of a pattern, in order. *)
Definition lits_of (p : pattern) : text :=
  omap (fun i => match i with Lit c => Some c | _ => None end) p.

End Re.

(** ** [JSONParser] ([product_listing_utils.py]) *)

Module JSONParser.
Import Py.

(** [parse_json]: the decoded value, or [None] on a [JSONDecodeError];
    the [except] clause names no other exception.  [room] is the
    recursion room of the calls of [json.loads]. *)
Definition parse_json (room : nat) (t : text) : exc value :=
  match Json.loads room t with
  | Ok v => Ok v
  | Raise JSONDecodeError => Ok VNone
  | Raise e => Raise e
  end.

(** The loop of [extract_from_markdown]: group 1 of the first pattern that
    matches. *)
Fixpoint first_match (ps : list Re.pattern) (t : text) : option text :=
  match ps with
  | [] => None
  | p :: ps' =>
    match Re.search p t with
    | Some g => Some g
    | None => first_match ps' t
    end
  end.

Definition extract_from_markdown (t : text) : option text :=
  first_match Re.patterns t.

(** Truth value of an [Optional[str]]. *)
Definition nonempty (o : option text) : bool :=
  match o with
  | Some (_ :: _) => true
  | _ => false
  end.

Definition smart_parse (room : nat) (t : text) : exc value :=
  result ← parse_json room t;
  if truthy result then Ok result
  else
    let json_str := extract_from_markdown t in
    if nonempty json_str then
      result ← parse_json room (default [] json_str);
      if truthy result then Ok result else Ok VNone
    else Ok VNone.

End JSONParser.

(** ** [JSONExtractor] ([product_listing_refactored.py]) *)

Module JSONExtractor.
Import Py.

(** The loop over the patterns: the first pattern that matches and whose
    group 1 decodes; [None] when the loop ends (the message printed then is
    not modelled). *)
Fixpoint try_patterns (room : nat) (ps : list Re.pattern) (t : text)
    : exc value :=
  match ps with
  | [] => Ok VNone
  | p :: ps' =>
    match Re.search p t with
    | Some g =>
      match Json.loads room g with
      | Ok v => Ok v
      | Raise JSONDecodeError => try_patterns room ps' t
      | Raise e => Raise e
      end
    | None => try_patterns room ps' t
    end
  end.

Definition extract (room : nat) (response_text : text) : exc value :=
  match Json.loads room response_text with
  | Ok v => Ok v
  | Raise JSONDecodeError => try_patterns room Re.patterns response_text
  | Raise e => Raise e
  end.

End JSONExtractor.

(** ** Validation functions ([product_listing_utils.py]) *)

Module Validation.
Import Py.

(** [d[k]]: a [KeyError] for a missing key. *)
Definition getitem (d : gmap text value) (k : text) : exc value :=
  match d !! k with
  | Some v => Ok v
  | None => Raise KeyError
  end.

(** The loop over [required_fields]: the first field that is not a key. *)
Fixpoint first_missing (fields : list text) (d : gmap text value)
    : option text :=
  match fields with
  | [] => None
  | field :: rest =>
    match d !! field with
    | None => Some field
    | Some _ => first_missing rest d
    end
  end.

(** The result pair [(is_valid, error_message)]. *)
Abbreviation verdict := (bool * option text)%type.

Definition invalid (msg : string) : exc verdict := Ok (false, Some (str msg)).
Definition valid : exc verdict := Ok (true, None).

Definition missing (field : text) : exc verdict :=
  Ok (false, Some (str "Missing required field: " ++ field)).

Section WithFloatParser.

(** [float(s)] for a [str]: the parser of float literals is the
    interpreter's; [None] stands for its [ValueError]. *)
Variable float_of_str : text -> option float.

(** [str(v)] for a list or a dictionary: the text is the interpreter's,
    and making it raises when an int inside has more than
    [max_str_digits] digits ([ValueError]) or when the nesting goes beyond
    the recursion limit ([RecursionError]).  [container_error v] is the
    exception raised, [None] when the text is made. *)
Variable container_error : value -> option exception.

(** Truth value of [str(v).strip()].  For a [str] it depends on the
    characters.  The text of any other value, when it can be made, always
    has a character that is not white space; there is no text of an int of
    more than [max_str_digits] digits. *)
Definition str_strip_truthy (v : value) : exc bool :=
  match v with
  | VStr s => Ok (negb (Nat.eqb (length (strip s)) 0))
  | VInt z => if too_long z then Raise ValueError else Ok true
  | VList _ | VDict _ =>
    match container_error v with
    | Some e => Raise e
    | None => Ok true
    end
  | VNone | VBool _ | VFloat _ => Ok true
  end.

(** [not v or not str(v).strip()]: the text is made only of a truthy
    value. *)
Definition falsy_or_blank (v : value) : exc bool :=
  if truthy v then b ← str_strip_truthy v; Ok (negb b) else Ok true.

(** [float(v)]. *)
Definition float_of (v : value) : exc float :=
  match v with
  | VFloat f => Ok f
  | VInt z => float_of_int z
  | VBool b => float_of_int (if b then 1 else 0)
  | VStr s =>
    match float_of_str s with
    | Some f => Ok f
    | None => Raise ValueError
    end
  | VNone | VList _ | VDict _ => Raise TypeError
  end.

Definition product_fields : list text :=
  map str ["id"; "name"; "price"; "category"; "image_path"]%string.

Definition validate_product_data (product : gmap text value) : exc verdict :=
  match first_missing product_fields product with
  | Some field => missing field
  | None =>
    name ← getitem product (str "name");
    blank_name ← falsy_or_blank name;
    if blank_name : bool then invalid "Product name cannot be empty"
    else
      raw ← getitem product (str "price");
      match float_of raw with
      | Raise ValueError | Raise TypeError =>
        invalid "Price must be a valid number"
      | Raise e => Raise e
      | Ok price =>
        if fltb price fzero then invalid "Price cannot be negative"
        else
          path ← getitem product (str "image_path");
          blank_path ← falsy_or_blank path;
          if blank_path : bool then invalid "Image path cannot be empty"
          else valid
      end
  end.

End WithFloatParser.

Definition listing_fields : list text :=
  map str ["title"; "description"; "features"; "keywords"]%string.

(** [not v or bad(len(v))], with the short circuit of [or]. *)
Definition falsy_or_len (v : value) (bad : Z -> bool) : exc bool :=
  if truthy v then n ← len v; Ok (bad n) else Ok true.

(** [not isinstance(v, list) or bad(len(v))]. *)
Definition not_list_or_len (v : value) (bad : Z -> bool) : exc bool :=
  if is_list v then n ← len v; Ok (bad n) else Ok true.

Definition validate_listing_data (data : gmap text value) : exc verdict :=
  match first_missing listing_fields data with
  | Some field => missing field
  | None =>
    title ← getitem data (str "title");
    bad_title ← falsy_or_len title (fun n => 100 <? n);
    if bad_title : bool then invalid "Title must be 1-100 characters"
    else
      description ← getitem data (str "description");
      bad_description ← falsy_or_len description (fun n => n <? 50);
      if bad_description : bool
      then invalid "Description must be at least 50 characters"
      else
        features ← getitem data (str "features");
        bad_features ← not_list_or_len features (fun n => n =? 0);
        if bad_features : bool then invalid "Features must be a non-empty list"
        else
          keywords ← getitem data (str "keywords");
          if negb (truthy keywords) || negb (is_str keywords)
          then invalid "Keywords must be a non-empty string"
          else valid
  end.

End Validation.

(** ** Utility helpers ([product_listing_utils.py]) *)

Module Helpers.
Import Py.

(** *** [format_price] *)

Fixpoint uint_text (u : Decimal.uint) : text :=
  match u with
  | Decimal.Nil => []
  | Decimal.D0 u => 48%N :: uint_text u
  | Decimal.D1 u => 49%N :: uint_text u
  | Decimal.D2 u => 50%N :: uint_text u
  | Decimal.D3 u => 51%N :: uint_text u
  | Decimal.D4 u => 52%N :: uint_text u
  | Decimal.D5 u => 53%N :: uint_text u
  | Decimal.D6 u => 54%N :: uint_text u
  | Decimal.D7 u => 55%N :: uint_text u
  | Decimal.D8 u => 56%N :: uint_text u
  | Decimal.D9 u => 57%N :: uint_text u
  end.

(** The decimal digits of a natural number. *)
Definition decimal (z : Z) : text := uint_text (N.to_uint (Z.to_N z)).

(** [num / den] rounded to the nearest integer, ties to even ([0 < den]). *)
Definition round_half_even (num den : Z) : Z :=
  let q := num / den in
  match 2 * (num mod den) ?= den with
  | Lt => q
  | Gt => q + 1
  | Eq => if Z.even q then q else q + 1
  end.

Definition sign_text (s : bool) : text := if s then str "-" else [].

(** The format specification [.2f] applied to a float: the exact binary
    value, correctly rounded to two decimals. *)
Definition format_2f (f : float) : text :=
  match f with
  | S754_nan => str "nan"
  | S754_infinity s => sign_text s ++ str "inf"
  | S754_zero s => sign_text s ++ str "0.00"
  | S754_finite s m e =>
    let hundredths :=
      if 0 <=? e then Z.pos m * 2 ^ e * 100
      else round_half_even (Z.pos m * 100) (2 ^ (- e)) in
    sign_text s ++ decimal (hundredths / 100) ++ str "."
      ++ decimal (hundredths mod 100 / 10) ++ decimal (hundredths mod 10)
  end.

(** [format(price, ".2f")]: an [int] or a [bool] is converted to a float
    first; other values have no such format. *)
Definition format_spec_2f (price : value) : exc text :=
  match price with
  | VFloat f => Ok (format_2f f)
  | VInt z => f ← float_of_int z; Ok (format_2f f)
  | VBool b => f ← float_of_int (if b then 1 else 0); Ok (format_2f f)
  | VStr _ => Raise ValueError
  | VNone | VList _ | VDict _ => Raise TypeError
  end.

Definition format_price (price : value) (currency : text) : exc text :=
  body ← format_spec_2f price;
  Ok (currency ++ body).

(** *** [calculate_statistics] *)

(** The element type [Union[int, float]]. *)
Inductive number :=
| Int (z : Z)
| Float (f : float).

(** [a + b]. *)
Definition add (a b : number) : exc number :=
  match a, b with
  | Int x, Int y => Ok (Int (x + y))
  | Int x, Float g => f ← float_of_int x; Ok (Float (fadd f g))
  | Float f, Int y => g ← float_of_int y; Ok (Float (fadd f g))
  | Float f, Float g => Ok (Float (fadd f g))
  end.

(** [sum(numbers)]: the items added from left to right, starting from the
    int [0].  (From Python 3.12 on a sum of floats is compensated, which
    can change its last bits, not whether it raises.) *)
Fixpoint sum_from (acc : number) (numbers : list number) : exc number :=
  match numbers with
  | [] => Ok acc
  | x :: rest => acc' ← add acc x; sum_from acc' rest
  end.

Definition sum (numbers : list number) : exc number := sum_from (Int 0) numbers.

(** [a / n] for an int [n]. *)
Definition truediv (a : number) (n : Z) : exc number :=
  match a with
  | Int x => f ← int_truediv x n; Ok (Float f)
  | Float f =>
    g ← float_of_int n;
    if feqb g fzero then Raise ZeroDivisionError else Ok (Float (fdiv f g))
  end.

(** The exact order between an int and a float. *)
Definition int_lt_float (x : Z) (g : float) : bool :=
  match g with
  | S754_nan => false
  | S754_infinity s => negb s
  | S754_zero _ => x <? 0
  | S754_finite s m e =>
    let v := if s then Z.neg m else Z.pos m in
    if 0 <=? e then x <? v * 2 ^ e else x * 2 ^ (- e) <? v
  end.

Definition float_lt_int (f : float) (y : Z) : bool :=
  match f with
  | S754_nan => false
  | S754_infinity s => s
  | S754_zero _ => 0 <? y
  | S754_finite s m e =>
    let v := if s then Z.neg m else Z.pos m in
    if 0 <=? e then v * 2 ^ e <? y else v <? y * 2 ^ (- e)
  end.

(** [a < b]. *)
Definition lt (a b : number) : bool :=
  match a, b with
  | Int x, Int y => x <? y
  | Int x, Float g => int_lt_float x g
  | Float f, Int y => float_lt_int f y
  | Float f, Float g => fltb f g
  end.

(** [min] and [max] of a first item and the remaining ones: an item
    replaces the current one when it is smaller (larger). *)
Definition min_from (first : number) (rest : list number) : number :=
  fold_left (fun cur item => if lt item cur then item else cur) rest first.

Definition max_from (first : number) (rest : list number) : number :=
  fold_left (fun cur item => if lt cur item then item else cur) rest first.

Definition calculate_statistics (numbers : list number)
    : exc (gmap text number) :=
  match numbers with
  | [] => Ok ∅
  | first :: rest =>
    let count := Z.of_nat (length numbers) in
    total ← sum numbers;
    mean ← truediv total count;
    Ok (<[str "count" := Int count]>
        (<[str "sum" := total]>
        (<[str "mean" := mean]>
        (<[str "min" := min_from first rest]>
        (<[str "max" := max_from first rest]> ∅)))))
  end.

(** *** [batch_items] *)

(** [range(start, stop, step)] as a list; a zero step is a [ValueError]. *)
Definition range (start stop step : Z) : exc (list Z) :=
  if step =? 0 then Raise ValueError
  else
    let count :=
      if 0 <? step then (stop - start + step - 1) / step
      else (start - stop - step - 1) / (- step) in
    Ok (map (fun k => start + Z.of_nat k * step) (seq 0 (Z.to_nat count))).

(** A slice bound brought into [0 .. n]: a negative bound counts from the
    end. *)
Definition clamp (n i : Z) : Z :=
  Z.max 0 (Z.min n (if i <? 0 then i + n else i)).

(** [l[lo:hi]]. *)
Definition slice {A} (l : list A) (lo hi : Z) : list A :=
  let n := Z.of_nat (length l) in
  let a := clamp n lo in
  let b := clamp n hi in
  take (Z.to_nat (b - a)) (drop (Z.to_nat a) l).

Definition batch_items {A} (items : list A) (batch_size : Z)
    : exc (list (list A)) :=
  starts ← range 0 (Z.of_nat (length items)) batch_size;
  Ok (map (fun i => slice items i (i + batch_size)) starts).

End Helpers.

(** ** The brace-delimited spans of the specification

    The two readings of "the substring that looks like a brace-delimited
    object", written from the words of the specification and compared with
    the last pattern below. *)

Module Spec.
Import Py Validation Helpers.

(** The shortest prefix of [s] that ends with a closing brace. *)
Fixpoint upto_first_close (s : text) : option text :=
  match s with
  | [] => None
  | c :: s' => if (c =? 125)%N then Some [c] else cons c <$> upto_first_close s'
  end.

(** The longest prefix of [s] that ends with a closing brace. *)
Fixpoint upto_last_close (s : text) : option text :=
  match s with
  | [] => None
  | c :: s' =>
    match upto_last_close s' with
    | Some b => Some (c :: b)
    | None => if (c =? 125)%N then Some [c] else None
    end
  end.

(** The text after the first opening brace of [s]. *)
Fixpoint after_first_open (s : text) : option text :=
  match s with
  | [] => None
  | c :: s' => if (c =? 123)%N then Some s' else after_first_open s'
  end.

(** From the first opening brace to the first closing brace after it. *)
Definition first_to_first (s : text) : option text :=
  s' ← after_first_open s; b ← upto_first_close s'; Some (123%N :: b).

(** From the first opening brace to the last closing brace. *)
Definition first_to_last (s : text) : option text :=
  s' ← after_first_open s; b ← upto_last_close s'; Some (123%N :: b).

(** What [parse_json] and [JSONExtractor.extract] make of the result of
    [json.loads]: [None] for a [JSONDecodeError], the only exception they
    catch; any other exception escapes. *)
Definition decoded (r : exc value) : exc value :=
  match r with
  | Raise JSONDecodeError => Ok VNone
  | other => other
  end.

(** What [smart_parse] keeps of an attempt: the decoded value when it is
    truthy, else [None]. *)
Definition attempt (r : exc value) : exc value :=
  v ← decoded r; Ok (if truthy v then v else VNone).

(** An extraction attempt fails: [json.loads] raises a [JSONDecodeError],
    or its value is not truthy. *)
Definition fails (r : exc value) : Prop := attempt r = Ok VNone.

(** A price that is a number below zero: a negative float, or a negative
    int that [float] can convert. *)
Definition negative_price (v : value) : Prop :=
  match v with
  | VFloat f => fltb f fzero = true
  | VInt z => z < 0 /\ raises (float_of_int z) = false
  | _ => False
  end.

(** A price that is a number not below zero: a float that is not negative
    (not a number included), or a non-negative int that [float] can
    convert. *)
Definition nonnegative_price (v : value) : Prop :=
  match v with
  | VFloat f => fltb f fzero = false
  | VInt z => 0 <= z /\ raises (float_of_int z) = false
  | _ => False
  end.

(** Every field of [fields] is a key of [d]. *)
Definition has_fields (fields : list text) (d : gmap text value) : Prop :=
  Forall (fun k => is_Some (d !! k)) fields.

(** A number as the interpreter holds it: a float is a binary64 value. *)
Definition valid_number (x : number) : Prop :=
  match x with
  | Int _ => True
  | Float f => valid_binary prec emax f = true
  end.

Definition is_float (x : number) : bool :=
  match x with
  | Float _ => true
  | Int _ => false
  end.

(** The place of a number among the reals and the two infinities: a finite
    number is [v * 2 ^ e].  Not-a-number has no place. *)
Inductive place :=
| Bottom
| Finite (v e : Z)
| Top.

Definition place_of (x : number) : option place :=
  match x with
  | Int z => Some (Finite z 0)
  | Float S754_nan => None
  | Float (S754_infinity s) => Some (if s then Bottom else Top)
  | Float (S754_zero _) => Some (Finite 0 0)
  | Float (S754_finite s m e) => Some (Finite (if s then Z.neg m else Z.pos m) e)
  end.

(** The strict order of the places. *)
Definition below (p q : place) : Prop :=
  match p, q with
  | Bottom, Bottom => False
  | Bottom, _ => True
  | Finite _ _, Top => True
  | Finite v e, Finite v' e' =>
    v * 2 ^ (e - Z.min e e') < v' * 2 ^ (e' - Z.min e e')
  | _, _ => False
  end.

(** [x] is less than [y] as the numbers they stand for. *)
Definition less (x y : number) : Prop :=
  exists p q, place_of x = Some p /\ place_of y = Some q /\ below p q.

(** Adding [a] and [b] converts an int that is beyond the float range:
    one is an int, the other a float, and [float] of the int raises. *)
Definition overflows (a b : number) : Prop :=
  match a, b with
  | Int z, Float _ | Float _, Int z => float_of_int z = Raise OverflowError
  | _, _ => False
  end.

(** The dictionary of the five statistics. *)
Definition statistics (count : Z) (total mean lo hi : number)
    : gmap text number :=
  <[str "count" := Int count]>
  (<[str "sum" := total]>
  (<[str "mean" := mean]>
  (<[str "min" := lo]>
  (<[str "max" := hi]> ∅)))).

End Spec.

(** ** Inputs used in the examples below *)

Module Examples.
Import Py.

(** The text of a JSON string: [s] between double quotes. *)
Definition quoted (s : string) : text := [34%N] ++ str s ++ [34%N].

(** The texts [{"a": {"b": 1}}] and [{"a": {"b": 1}], and the first of them
    between an [x] and a [y]. *)
Definition nested_first_to_last : text :=
  str "{" ++ quoted "a" ++ str ": {" ++ quoted "b" ++ str ": 1}}".
Definition nested_first_to_first : text :=
  str "{" ++ quoted "a" ++ str ": {" ++ quoted "b" ++ str ": 1}".
Definition nested_text : text := str "x " ++ nested_first_to_last ++ str " y".
Definition nested_object : value :=
  VDict {[ str "a" := VDict {[ str "b" := VInt 1 ]} ]}.
Definition array_text : text := str "[1]".
Definition wrapped_garbage : text := str "```json {oops} ```".
(** The text [{"a": 1}] and what is between its braces. *)
Definition object_body : text := quoted "a" ++ str ": 1".
Definition object_text : text := str "{" ++ object_body ++ str "}".
Definition object_value : value := VDict {[ str "a" := VInt 1 ]}.
Definition newline : text := [10%N].
(** The product dictionary with the five required fields. *)
Definition product (name price path : value) : gmap text value :=
  <[str "id" := VInt 1]>
  (<[str "name" := name]>
  (<[str "price" := price]>
  (<[str "category" := VStr (str "Gadgets")]>
  (<[str "image_path" := path]> ∅)))).

(** A stand-in for the interpreter's parser of float literals, for inputs
    in which no price is a [str]. *)
Definition no_str_price : text -> option float := fun _ => None.

(** A stand-in for the exception of the text of a list or a dictionary,
    for inputs in which no name and no image path is one. *)
Definition no_container : value -> option exception := fun _ => None.

(** A recursion room that the example texts fit in. *)
Definition room : nat := 100.

(** An int literal of one digit more than [max_str_digits]: 4301 times the
    digit 1. *)
Definition long_int : text := repeat 49%N 4301.

(** Arrays one inside the other, two more than [room]: one more than a
    call of [json.loads] with this room can enter. *)
Definition deep_array (room : nat) : text := repeat 91%N (S (S room)).

Definition widget : value := VStr (str "Widget").
Definition widget_jpg : value := VStr (str "widget.jpg").

(** The float of the literal [-10.00]. *)
Definition minus_ten : float := fopp (float_of_decimal 1000 (-2)).

Definition fifty_chars : text :=
  str "This description is longer than fifty characters in all.".

(** A listing whose title is the int [5]. *)
Definition int_title_listing : gmap text value :=
  <[str "title" := VInt 5]>
  (<[str "description" := VStr fifty_chars]>
  (<[str "features" := VList [VStr (str "Feature 1")]]>
  (<[str "keywords" := VStr (str "product")]> ∅))).

End Examples.

(** ** Further utilities ([product_listing_utils.py]) *)

Module Utils.
Import Py.

(** [JSONParser.extract_fields]: one entry per requested field, with the
    value [data.get(field, default_value)]. *)
Definition extract_fields (data : gmap text value)
    (required_fields : list text) (default_value : value) : gmap text value :=
  fold_left
    (fun acc field => <[field := default default_value (data !! field)]> acc)
    required_fields ∅.

(** [merge_dicts]: [result.update(d)] for each dictionary in turn. *)
Definition merge_dicts (dicts : list (gmap text value)) : gmap text value :=
  fold_left (fun result d => d ∪ result) dicts ∅.

(** [filter_dict]: the items of [data] whose key is in [keys]. *)
Definition filter_dict (data : gmap text value) (keys : list text)
    : gmap text value :=
  filter (fun kv => kv.1 ∈ keys) data.

(** [re.sub(r'\s+', ' ', text)]: every maximal run of white space becomes
    one space; [in_run] tells that the previous character was white
    space. *)
Fixpoint sub_spaces (in_run : bool) (s : text) : text :=
  match s with
  | [] => []
  | c :: s' =>
    if isspace c then
      if in_run then sub_spaces true s' else 32%N :: sub_spaces true s'
    else c :: sub_spaces false s'
  end.

Definition clean_text (t : text) : text := strip (sub_spaces false t).

Definition truncate_text (t : text) (max_length : Z) (suffix : text) : text :=
  if Z.of_nat (length t) <=? max_length then t
  else
    Helpers.slice t 0 (max_length - Z.of_nat (length suffix)) ++ suffix.

(** The decimal digits of an int, after its sign. *)
Definition int_digits (z : Z) : text :=
  if z <? 0 then str "-" ++ Helpers.decimal (- z) else Helpers.decimal z.

(** [str(z)] for an int, also as a field of an f-string: a [ValueError]
    for more than [max_str_digits] digits. *)
Definition int_text (z : Z) : exc text :=
  if too_long z then Raise ValueError else Ok (int_digits z).

(** The format specification [.1f] applied to a float. *)
Definition format_1f (f : float) : text :=
  match f with
  | S754_nan => str "nan"
  | S754_infinity s => Helpers.sign_text s ++ str "inf"
  | S754_zero s => Helpers.sign_text s ++ str "0.0"
  | S754_finite s m e =>
    let tenths :=
      if 0 <=? e then Z.pos m * 2 ^ e * 10
      else Helpers.round_half_even (Z.pos m * 10) (2 ^ (- e)) in
    Helpers.sign_text s ++ Helpers.decimal (tenths / 10) ++ str "."
      ++ Helpers.decimal (tenths mod 10)
  end.

(** [progress_tracker]: the percentage is [current / total * 100] for a
    positive total and the int [0] otherwise; the fields of the f-string
    are then made from left to right. *)
Definition progress_tracker (current total : Z) (prefix : text) : exc text :=
  percentage ←
    (if 0 <? total
     then q ← int_truediv current total;
          Ok (SFmul prec emax q (round_Z 100))
     else float_of_int 0);
  shown_current ← int_text current;
  shown_total ← int_text total;
  Ok (prefix ++ str "[" ++ shown_current ++ str "/" ++ shown_total
        ++ str "] " ++ format_1f percentage ++ str "%").

End Utils.

(** ** [ProductInfo] ([product_listing_refactored.py]) *)

Module ProductInfo.
Import Py.

Record t := {
  id : value;
  name : text;
  price : Helpers.number;
  category : text;
  image_path : text;
  additional_info : option text
}.

Definition validate (self : t) : bool :=
  if Nat.eqb (length (name self)) 0 || Nat.eqb (length (image_path self)) 0
  then false
  else if Helpers.lt (price self) (Helpers.Int 0) then false
  else true.

End ProductInfo.

(** ** Notions used to state the properties of the further utilities *)

Module Shape.
Import Py.

(** White space occurs in [l] only as single spaces, and not at the head
    when [after_space] is set. *)
Fixpoint spaced_ok (after_space : bool) (l : text) : bool :=
  match l with
  | [] => true
  | c :: l' =>
    if isspace c then negb after_space && (c =? 32)%N && spaced_ok true l'
    else spaced_ok false l'
  end.

(** A text without leading or trailing white space whose white space is
    single spaces. *)
Definition tidy (l : text) : Prop :=
  spaced_ok true l = true /\ forall c, last l = Some c -> isspace c = false.

Definition nonspace (c : char) : bool := negb (isspace c).

(** A pattern in which no group opens or closes. *)
Definition group_free (p : Re.pattern) : bool :=
  forallb (fun i => match i with
                    | Re.GroupOpen | Re.GroupClose => false
                    | _ => true
                    end) p.

(** A text between an opening and a closing brace. *)
Definition in_braces (g : text) : Prop := exists b, g = 123%N :: b ++ [125%N].

(** The product dictionary that holds the fields of a [ProductInfo] under
    the keys that [validate_product_data] requires. *)
Definition as_product (self : ProductInfo.t) : gmap text value :=
  <[str "id" := ProductInfo.id self]>
  (<[str "name" := VStr (ProductInfo.name self)]>
  (<[str "price" :=
       match ProductInfo.price self with
       | Helpers.Int z => VInt z
       | Helpers.Float f => VFloat f
       end]>
  (<[str "category" := VStr (ProductInfo.category self)]>
  (<[str "image_path" := VStr (ProductInfo.image_path self)]> ∅)))).

End Shape.

Module Batches.

(** The [count] consecutive blocks of [size] items of [l]. *)
Definition blocks {A} (size count : nat) (l : list A) : list (list A) :=
  map (fun k => take size (drop (k * size) l)) (seq 0 count).

(** The number of batches: the length divided by the size, rounded up. *)
Definition batch_count (n size : Z) : nat := Z.to_nat ((n + size - 1) / size).

End Batches.

(** ** Inputs used in the examples of the further utilities *)

Module Samples.
Import Py.

(** The float of the literal [49.99]. *)
Definition price_49_99 : float := float_of_decimal 4999 (-2).

(** The float of the literal [0.5]. *)
Definition half : float := float_of_decimal 5 (-1).

(** A listing with a title, a description, features and keywords of the
    expected types and sizes. *)
Definition listing : gmap text value :=
  <[str "title" := VStr (str "Wireless Headphones")]>
  (<[str "description" := VStr Examples.fifty_chars]>
  (<[str "features" := VList [VStr (str "Feature 1")]]>
  (<[str "keywords" := VStr (str "product")]> ∅))).

Definition headphones : ProductInfo.t :=
  {| ProductInfo.id := VInt 1;
     ProductInfo.name := str "Headphones";
     ProductInfo.price := Helpers.Float price_49_99;
     ProductInfo.category := str "Electronics";
     ProductInfo.image_path := str "headphones.jpg";
     ProductInfo.additional_info := None |}.

(** The text [Here: {"a": 1}!] and the object text in a fence tagged
    [json]. *)
Definition prose : text := str "Here: " ++ Examples.object_text ++ str "!".
Definition tagged_fence : text :=
  str "```json" ++ Examples.newline ++ Examples.object_text
    ++ Examples.newline ++ str "```".

End Samples.

(** * Properties *)

Import Py.

(** ** The JSON scanner has enough fuel *)

Local Open Scope nat_scope.

Section JsonFuel.
Import Json.

Lemma skip_ws_length (s : text) : length (skip_ws s) <= length s.
Proof.
  induction s as [|c s IH]; simpl; [lia|].
  destruct (is_ws c); simpl; lia.
Qed.

Lemma push_length c r body rest (n : nat) :
  push c r = Some (body, rest) ->
  (forall b, r = Some (b, rest) -> length rest < n) ->
  length rest < n.
Proof.
  destruct r as [[b r']|]; simpl; intros H K; [|discriminate].
  injection H as _ <-. eauto.
Qed.

Lemma scanstring_length (s body rest : text) :
  scanstring s = Some (body, rest) -> length rest < length s.
Proof.
  assert (Hle : length s <= length s) by lia. revert Hle.
  generalize (length s) at 2 as n. intros n. revert s body rest.
  induction n as [|n IH]; intros s body rest Hle; destruct s as [|c s1]; simpl in *;
    try discriminate; try lia.
  intros H.
  assert (Hrec : forall s' c' b r, length s' <= n ->
            push c' (scanstring s') = Some (b, r) -> length r < S (length s')).
  { intros s' c' b r Hs' Hp. destruct (scanstring s') as [[b' r']|] eqn:E; [|discriminate].
    simpl in Hp. injection Hp as _ <-. apply IH in E; lia. }
  repeat case_match; simplify_eq; cbn [length] in *; try lia;
    match goal with
    | H : push _ (scanstring ?s') = Some _ |- _ =>
      apply Hrec in H; cbn [length] in *; lia
    end.
Qed.

Lemma span_digits_length (s ds rest : text) :
  span_digits s = (ds, rest) -> length rest <= length s.
Proof.
  revert ds rest. induction s as [|c s IH]; simpl; intros ds rest H.
  - injection H as <- <-. simpl; lia.
  - destruct (is_digit c).
    + destruct (span_digits s) as [ds' r'] eqn:E. injection H as <- <-.
      specialize (IH _ _ eq_refl). lia.
    + injection H as <- <-. simpl; lia.
Qed.

Lemma match_number_length (s : text) v rest :
  match_number s = Some (v, rest) -> length rest < length s.
Proof.
  unfold match_number. intros H.
  repeat (case_match; simplify_eq; simpl in *; try lia);
    repeat match goal with
    | H : span_digits _ = (_, _) |- _ => apply span_digits_length in H; simpl in H
    end; simpl in *; lia.
Qed.

Lemma starts_length (p s rest : text) :
  starts p s = Some rest -> length s = length p + length rest.
Proof.
  revert s. induction p as [|a p IH]; intros [|b s]; simpl; intros H; simplify_eq; auto.
  destruct (a =? b)%N; [|discriminate]. apply IH in H. lia.
Qed.

Lemma constant_length name v s v' rest :
  constant name v s = Some (v', rest) ->
  length s = length (str name) + length rest.
Proof.
  unfold constant. destruct (starts (str name) s) eqn:E; intros H; simplify_eq.
  by apply starts_length.
Qed.

Lemma scan_atom_length (s : text) v rest :
  scan_atom s = Some (v, rest) -> length rest < length s.
Proof.
  unfold scan_atom. intros H.
  repeat case_match; simplify_eq;
    try (match goal with
         | H : constant _ _ _ = Some _ |- _ => apply constant_length in H; simpl in H; lia
         end).
  eauto using match_number_length.
Qed.


(** With fuel above twice the length of the text the scanner never runs
    out of fuel, and a term it reads is not empty. *)
Lemma scanner_fuel (fuel : nat) :
  (forall room s, 2 * length s + 1 <= fuel ->
     scan_once fuel room s <> Exhausted /\
     forall v rest, scan_once fuel room s = Parsed v rest ->
       length rest < length s) /\
  (forall room s acc, 2 * length s + 2 <= fuel ->
     parse_array fuel room s acc <> Exhausted /\
     forall v rest, parse_array fuel room s acc = Parsed v rest ->
       length rest < length s) /\
  (forall room s acc, 2 * length s + 2 <= fuel ->
     parse_object fuel room s acc <> Exhausted /\
     forall v rest, parse_object fuel room s acc = Parsed v rest ->
       length rest < length s).
Proof.
  induction fuel as [|fuel (IHs & IHa & IHo)].
  { repeat split; intros; lia. }
  split; [|split].
  - intros room s Hf. destruct s as [|c s']; [simpl; split; [discriminate|discriminate]|].
    cbn [scan_once].
    destruct (c =? 34)%N.
    { destruct (scanstring s') as [[body rest]|] eqn:E; split; try discriminate.
      intros v r H; simplify_eq. apply scanstring_length in E. simpl; lia. }
    pose proof (skip_ws_length s') as Hws.
    destruct (c =? 123)%N.
    { destruct room as [|room']; [split; discriminate|].
      destruct (skip_ws s') as [|c1 r1] eqn:E; [split; discriminate|].
      destruct (c1 =? 125)%N.
      - split; [discriminate|]. intros v r H; simplify_eq. simpl in *; lia.
      - destruct (IHo room' (c1 :: r1) ∅) as [H1 H2]; [simpl in *; lia|].
        split; [done|]. intros v r H. apply H2 in H. simpl in *; lia. }
    destruct (c =? 91)%N.
    { destruct room as [|room']; [split; discriminate|].
      destruct (skip_ws s') as [|c1 r1] eqn:E; [split; discriminate|].
      destruct (c1 =? 93)%N.
      - split; [discriminate|]. intros v r H; simplify_eq. simpl in *; lia.
      - destruct (IHa room' (c1 :: r1) []) as [H1 H2]; [simpl in *; lia|].
        split; [done|]. intros v r H. apply H2 in H. simpl in *; lia. }
    destruct (scan_atom (c :: s')) as [[[v|e] r]|] eqn:E; simpl; split;
      try discriminate.
    intros v' r' H; simplify_eq. by apply scan_atom_length in E.
  - intros room s acc Hf. cbn [parse_array].
    destruct (IHs room s) as [H1 H2]; [lia|].
    destruct (scan_once fuel room s) as [v rest| |e|] eqn:E;
      [|split; discriminate|split; discriminate|done].
    specialize (H2 _ _ eq_refl).
    pose proof (skip_ws_length rest) as Hws.
    destruct (skip_ws rest) as [|c r] eqn:E'; [split; discriminate|].
    destruct (c =? 93)%N.
    { split; [discriminate|]. intros v' r' H; simplify_eq. simpl in *; lia. }
    destruct (c =? 44)%N; [|split; discriminate].
    pose proof (skip_ws_length r) as Hws'.
    destruct (IHa room (skip_ws r) (v :: acc)) as [H3 H4]; [simpl in *; lia|].
    split; [done|]. intros v' r' H. apply H4 in H. simpl in *; lia.
  - intros room s acc Hf. cbn [parse_object].
    destruct s as [|q s1]; [split; discriminate|].
    destruct (q =? 34)%N; [|split; discriminate].
    destruct (scanstring s1) as [[key s2]|] eqn:Ek; [|split; discriminate].
    apply scanstring_length in Ek.
    pose proof (skip_ws_length s2) as Hws2.
    destruct (skip_ws s2) as [|colon s3] eqn:E2; [split; discriminate|].
    destruct (colon =? 58)%N; [|split; discriminate].
    pose proof (skip_ws_length s3) as Hws3.
    destruct (IHs room (skip_ws s3)) as [H1 H2]; [simpl in *; lia|].
    destruct (scan_once fuel room (skip_ws s3)) as [v rest| |e|] eqn:E;
      [|split; discriminate|split; discriminate|done].
    specialize (H2 _ _ eq_refl).
    pose proof (skip_ws_length rest) as Hws.
    destruct (skip_ws rest) as [|c r] eqn:E'; [split; discriminate|].
    destruct (c =? 125)%N.
    { split; [discriminate|]. intros v' r' H; simplify_eq. simpl in *; lia. }
    destruct (c =? 44)%N; [|split; discriminate].
    pose proof (skip_ws_length r) as Hws'.
    destruct (IHo room (skip_ws r) (<[key := v]> acc)) as [H3 H4]; [simpl in *; lia|].
    split; [done|]. intros v' r' H. apply H4 in H. simpl in *; lia.
Qed.

(** [json.loads] never fails for lack of fuel. *)
Lemma loads_fuel_enough (room : nat) (s : text) :
  scan_once (loads_fuel s) (S room) (skip_ws s) <> Exhausted.
Proof.
  apply scanner_fuel. unfold loads_fuel.
  pose proof (skip_ws_length s). lia.
Qed.

End JsonFuel.

(** ** The patterns *)

Section Regex.
Import Re Spec.

Lemma match_here_spaces (p : pattern) (s opened g : text) :
  match_here (Spaces :: p) s opened g =
  match s with
  | a :: s' =>
    if isspace a then
      match match_here (Spaces :: p) s' opened g with
      | Some r => Some r
      | None => match_here p s opened g
      end
    else match_here p s opened g
  | [] => match_here p s opened g
  end.
Proof. destruct s; reflexivity. Qed.

Lemma match_here_lazy (p : pattern) (s opened g : text) :
  match_here (AnyLazy :: p) s opened g =
  match match_here p s opened g with
  | Some r => Some r
  | None =>
    match s with
    | _ :: s' => match_here (AnyLazy :: p) s' opened g
    | [] => None
    end
  end.
Proof. destruct s; reflexivity. Qed.

Lemma match_here_sublist (p : pattern) :
  forall s opened g r, match_here p s opened g = Some r -> sublist (lits_of p) s.
Proof.
  induction p as [|i p IH]; intros s opened g r H.
  - apply sublist_nil_l.
  - destruct i.
    + cbn [match_here] in H. destruct s as [|a s']; [discriminate|].
      destruct (a =? c)%N eqn:E; [|discriminate].
      apply N.eqb_eq in E as ->. apply sublist_skip. eauto.
    + change (lits_of (Spaces :: p)) with (lits_of p).
      revert H. induction s as [|a s' IHs]; rewrite match_here_spaces;
        intros H; [eauto|].
      destruct (isspace a); [|eauto].
      destruct (match_here (Spaces :: p) s' opened g) eqn:E; [|eauto].
      apply sublist_cons. by apply IHs.
    + change (lits_of (AnyLazy :: p)) with (lits_of p).
      revert H. induction s as [|a s' IHs]; rewrite match_here_lazy; intros H.
      * destruct (match_here p [] opened g) eqn:E; [eauto|discriminate].
      * destruct (match_here p (a :: s') opened g) eqn:E; [eauto|].
        apply sublist_cons. eauto.
    + change (lits_of (GroupOpen :: p)) with (lits_of p).
      cbn [match_here] in H. eauto.
    + change (lits_of (GroupClose :: p)) with (lits_of p).
      cbn [match_here] in H. eauto.
Qed.

Lemma search_sublist (p : pattern) (s g : text) :
  search p s = Some g -> sublist (lits_of p) s.
Proof.
  induction s as [|a s IH]; cbn [search]; intros H.
  - destruct (match_here p [] [] []) eqn:E; [|discriminate].
    eauto using match_here_sublist.
  - destruct (match_here p (a :: s) [] []) eqn:E.
    + eauto using match_here_sublist.
    + apply sublist_cons. eauto.
Qed.

Lemma lazy_close (g : text) (s pre : text) :
  match_here [AnyLazy; Lit 125%N; GroupClose] s (pre ++ s) g
  = (fun b => pre ++ b) <$> upto_first_close s.
Proof.
  revert pre. induction s as [|c s IH]; intros pre; [reflexivity|].
  rewrite match_here_lazy. cbn [match_here upto_first_close].
  destruct (c =? 125)%N eqn:E.
  - cbn. f_equal. rewrite length_app. cbn [length].
    replace (length pre + S (length s) - length s) with (length pre + 1) by lia.
    rewrite take_app_add'; [|done]. reflexivity.
  - specialize (IH (pre ++ [c])). rewrite <- app_assoc in IH. cbn [app] in IH.
    etrans; [exact IH|].
    destruct (upto_first_close s); cbn; [|reflexivity].
    by rewrite <- app_assoc.
Qed.

Lemma match_here_braced (s : text) :
  match_here braced s [] [] =
  match s with
  | c :: s' => if (c =? 123)%N then cons c <$> upto_first_close s' else None
  | [] => None
  end.
Proof.
  destruct s as [|c s']; [reflexivity|].
  unfold braced. cbn [match_here].
  destruct (c =? 123)%N; [|reflexivity].
  apply (lazy_close [] s' [c]).
Qed.

Lemma upto_first_close_None (s : text) :
  upto_first_close s = None <-> 125%N ∉ s.
Proof.
  induction s as [|c s IH]; cbn.
  - split; [intros _; apply not_elem_of_nil|done].
  - destruct (c =? 125)%N eqn:E.
    + apply N.eqb_eq in E as ->. split; [done|]. intros []. left.
    + apply N.eqb_neq in E. rewrite not_elem_of_cons, <- IH.
      destruct (upto_first_close s); cbn; split; try done. intros [_ ?]; done.
Qed.

Lemma after_first_open_suffix (s s' : text) :
  after_first_open s = Some s' -> s' `suffix_of` s.
Proof.
  induction s as [|c s IH]; cbn; [discriminate|].
  destruct (c =? 123)%N; intros H.
  - simplify_eq. by apply suffix_cons_r.
  - apply suffix_cons_r; eauto.
Qed.

Lemma first_to_first_None (s : text) :
  125%N ∉ s -> first_to_first s = None.
Proof.
  intros H. unfold first_to_first.
  destruct (after_first_open s) as [s'|] eqn:E; cbn; [|reflexivity].
  apply after_first_open_suffix in E as [k ->].
  assert (upto_first_close s' = None) as ->; [|reflexivity].
  apply upto_first_close_None. intros Hin. apply H. apply elem_of_app. by right.
Qed.

(** The last pattern finds the text from the first opening brace to the
    first closing brace after it. *)
Lemma search_braced (s : text) : search braced s = first_to_first s.
Proof.
  induction s as [|c s IH]; [reflexivity|].
  cbn [search]. rewrite match_here_braced.
  unfold first_to_first. cbn [after_first_open].
  destruct (c =? 123)%N eqn:E.
  - apply N.eqb_eq in E as ->. cbn.
    destruct (upto_first_close s) eqn:F; cbn; [reflexivity|].
    rewrite IH. apply first_to_first_None. by apply upto_first_close_None.
  - exact IH.
Qed.

Lemma sublist_braces_span (s : text) :
  sublist [123%N; 125%N] s -> is_Some (first_to_first s).
Proof.
  unfold first_to_first.
  induction s as [|c s IH]; intros H; [by apply sublist_nil_r in H|].
  cbn [after_first_open]. destruct (c =? 123)%N eqn:E.
  - cbn. assert (125%N ∈ s) as Hin.
    { inversion H as [|? ? ? H1|? ? ? H1]; subst.
      - apply (elem_of_sublist [125%N]); [left|done].
      - apply (elem_of_sublist [123%N; 125%N]); [right; left|done]. }
    destruct (upto_first_close s) eqn:F; cbn; [eauto|].
    by apply upto_first_close_None in F.
  - apply N.eqb_neq in E. apply IH.
    inversion H; subst; [congruence|done].
Qed.

End Regex.

Section Fences.
Import Re Spec.

Lemma match_here_lits (l : text) (p : pattern) (s opened g : text) :
  match_here (map Lit l ++ p) (l ++ s) opened g = match_here p s opened g.
Proof.
  induction l as [|c l IH]; [reflexivity|].
  cbn [map app match_here]. by rewrite N.eqb_refl.
Qed.

Lemma match_here_open (p : pattern) (s opened g : text) :
  match_here (GroupOpen :: p) s opened g = match_here p s s g.
Proof. reflexivity. Qed.

Lemma match_here_close (p : pattern) (s opened g : text) :
  match_here (GroupClose :: p) s opened g
  = match_here p s opened (take (length opened - length s) opened).
Proof. reflexivity. Qed.

Lemma match_here_lit (c : char) (p : pattern) (s opened g : text) :
  match_here (Lit c :: p) (c :: s) opened g = match_here p s opened g.
Proof. cbn [match_here]. by rewrite N.eqb_refl. Qed.

Lemma match_here_lit_ne (c a : char) (p : pattern) (s opened g : text) :
  a <> c -> match_here (Lit c :: p) (a :: s) opened g = None.
Proof. intros H. cbn [match_here]. apply N.eqb_neq in H. by rewrite H. Qed.

Lemma spaces_skip (ws : text) (p : pattern) (s opened g r : text) :
  Forall (fun c => isspace c = true) ws ->
  match_here (Spaces :: p) s opened g = Some r ->
  match_here (Spaces :: p) (ws ++ s) opened g = Some r.
Proof.
  intros Hws H. induction Hws as [|c ws Hc _ IH]; [exact H|].
  cbn [app]. rewrite match_here_spaces, Hc, IH. reflexivity.
Qed.

Lemma lazy_skip (body : text) (q : pattern) (rest opened g r : text) :
  125%N ∉ body ->
  match_here q rest opened g = Some r ->
  match_here (AnyLazy :: Lit 125%N :: q) (body ++ 125%N :: rest) opened g = Some r.
Proof.
  intros Hb H. induction body as [|c body IH]; rewrite match_here_lazy; cbn [app].
  - by rewrite match_here_lit, H.
  - apply not_elem_of_cons in Hb as [Hc Hb].
    rewrite match_here_lit_ne by done. auto.
Qed.

(** A fence, white space, a braced text without inner closing brace, white
    space, a fence: the pattern matches at once and group 1 is the braced
    text. *)
Lemma fenced_match (tag ws1 body ws2 : text) :
  Forall (fun c => isspace c = true) ws1 ->
  Forall (fun c => isspace c = true) ws2 ->
  125%N ∉ body ->
  match_here (map Lit tag ++ [Spaces] ++ braced ++ [Spaces] ++ lits "```")
    (tag ++ ws1 ++ (123%N :: body ++ [125%N]) ++ ws2 ++ str "```") [] []
  = Some (123%N :: body ++ [125%N]).
Proof.
  intros H1 H2 Hb. rewrite match_here_lits.
  cbn [app]. apply spaces_skip; [done|].
  rewrite match_here_spaces. cbn [app].
  change (isspace 123%N) with false. cbv iota.
  unfold braced. cbn [app]. rewrite match_here_open, match_here_lit.
  rewrite <- (app_assoc body). cbn [app].
  apply lazy_skip; [done|].
  rewrite match_here_close.
  set (opened := 123%N :: body ++ 125%N :: ws2 ++ str "```").
  set (rest := ws2 ++ str "```").
  assert (take (length opened - length rest) opened = 123%N :: body ++ [125%N]) as ->.
  { subst opened rest. 
    change (123%N :: body ++ 125%N :: ws2 ++ str "```")
      with ((123%N :: body) ++ [125%N] ++ (ws2 ++ str "```")).
    rewrite app_assoc, length_app.
    replace (length ((123%N :: body) ++ [125%N]) + length (ws2 ++ str "```")
               - length (ws2 ++ str "```"))
      with (length ((123%N :: body) ++ [125%N])) by lia.
    by rewrite take_app_length. }
  subst rest. apply spaces_skip; [done|].
  rewrite match_here_spaces. apply (match_here_lits (str "```") [] []).
Qed.

Lemma search_here (p : pattern) (s g : text) :
  match_here p s [] [] = Some g -> search p s = Some g.
Proof. intros H. destruct s; cbn [search]; by rewrite H. Qed.

End Fences.

Section Extractor.
Import Re Spec JSONParser.
Variable room : nat.

Lemma parse_json_eq (t : text) :
  parse_json room t = decoded (Json.loads room t).
Proof. unfold parse_json, decoded. by destruct (Json.loads room t) as [v|[]]. Qed.

(** An attempt that returns gives [None] or a truthy value. *)
Lemma attempt_cases (r : exc value) (v : value) :
  attempt r = Ok v -> v = VNone \/ truthy v = true.
Proof.
  unfold attempt. destruct (decoded r) as [w|e]; cbn [mbind exc_bind]; [|done].
  destruct (truthy w) eqn:E; intros H; simplify_eq; auto.
Qed.

(** [smart_parse] is a first attempt on the text and, when that gives
    [None], a second one on the located text. *)
Lemma smart_parse_eq (t : text) :
  smart_parse room t =
  match attempt (Json.loads room t) with
  | Ok VNone =>
    match extract_from_markdown t with
    | Some g => attempt (Json.loads room g)
    | None => Ok VNone
    end
  | other => other
  end.
Proof.
  unfold smart_parse. rewrite (parse_json_eq t). unfold attempt at 1.
  destruct (decoded (Json.loads room t)) as [v|e]; cbn [mbind exc_bind]; [|done].
  destruct (truthy v) eqn:E; [destruct v; [cbn in E; discriminate|reflexivity..]|].
  destruct (extract_from_markdown t) as [[|c g]|]; cbn [nonempty default];
    try reflexivity.
  unfold id. rewrite parse_json_eq. unfold attempt.
  destruct (decoded (Json.loads room (c :: g))) as [w|e];
    cbn [mbind exc_bind]; [|done].
  by destruct (truthy w).
Qed.

(** What [smart_parse] returns is [None] or a truthy value. *)
Lemma smart_parse_value (t : text) (v : value) :
  smart_parse room t = Ok v -> v = VNone \/ truthy v = true.
Proof.
  rewrite smart_parse_eq.
  destruct (attempt (Json.loads room t)) as [w|e] eqn:E; [|done].
  assert (Hw : w = VNone \/ truthy w = true) by eauto using attempt_cases.
  destruct w; try (intros H; simplify_eq; exact Hw).
  destruct (extract_from_markdown t) as [g|]; [apply attempt_cases|].
  intros H. simplify_eq. by left.
Qed.

Lemma fenced_lits : sublist [123%N; 125%N] (lits_of fenced).
Proof. vm_compute. repeat constructor. Qed.

Lemma fenced_json_lits : sublist [123%N; 125%N] (lits_of fenced_json).
Proof. vm_compute. repeat constructor. Qed.

(** A text with no brace-delimited substring matches none of the
    patterns. *)
Lemma no_span_no_match (t : text) :
  first_to_first t = None -> extract_from_markdown t = None.
Proof.
  intros H. unfold extract_from_markdown, patterns. cbn [first_match].
  assert (Hno : forall p, sublist [123%N; 125%N] (lits_of p) -> search p t = None).
  { intros p Hp. destruct (search p t) as [g|] eqn:E; [|done].
    apply search_sublist in E.
    destruct (sublist_braces_span t) as [x Hx]; [by etrans|congruence]. }
  rewrite (Hno _ fenced_json_lits), (Hno _ fenced_lits), search_braced.
  by rewrite H.
Qed.

(** [smart_parse] returns [None] exactly when every attempt fails. *)
Lemma smart_parse_None (t : text) :
  smart_parse room t = Ok VNone <->
  fails (Json.loads room t) /\
  forall g, extract_from_markdown t = Some g -> fails (Json.loads room g).
Proof.
  rewrite smart_parse_eq. unfold fails. split.
  - intros H. destruct (attempt (Json.loads room t)) as [v|e]; [|done].
    destruct v; try discriminate. split; [done|].
    intros g Hg. by rewrite Hg in H.
  - intros [H1 H2]. rewrite H1.
    destruct (extract_from_markdown t) as [g|]; [by apply H2|done].
Qed.

(** An exception that escapes from [smart_parse] is one of [json.loads]
    other than [JSONDecodeError], on the text or on the located text. *)
Lemma smart_parse_Raise (t : text) (e : exception) :
  smart_parse room t = Raise e ->
  e <> JSONDecodeError /\
  (Json.loads room t = Raise e \/
   exists g, extract_from_markdown t = Some g /\ Json.loads room g = Raise e).
Proof.
  assert (Ha : forall r, attempt r = Raise e -> e <> JSONDecodeError /\ r = Raise e).
  { intros [v|e']; unfold attempt; cbn; [done|].
    destruct e'; cbn; intros H; simplify_eq; done. }
  rewrite smart_parse_eq.
  destruct (attempt (Json.loads room t)) as [v|e'] eqn:E.
  - destruct v; try discriminate.
    destruct (extract_from_markdown t) as [g|]; [|done].
    intros [? ?]%Ha. eauto.
  - intros H. simplify_eq. apply Ha in E as [? ?]. auto.
Qed.

Lemma extractor_try_patterns_eq (t : text) :
  search fenced_json t = None -> search fenced t = None ->
  JSONExtractor.try_patterns room patterns t =
  match first_to_first t with
  | Some g => decoded (Json.loads room g)
  | None => Ok VNone
  end.
Proof.
  intros H1 H2. unfold patterns. cbn [JSONExtractor.try_patterns].
  rewrite H1, H2, search_braced.
  destruct (first_to_first t) as [g|]; [|done].
  by destruct (Json.loads room g) as [v|[]].
Qed.

Lemma located_fence (t g : text) :
  first_match [fenced_json; fenced] t = Some g ->
  extract_from_markdown t = Some g.
Proof.
  unfold extract_from_markdown, patterns. cbn [first_match].
  destruct (search fenced_json t); [done|]. by destruct (search fenced t).
Qed.

Lemma loads_fence (rest : text) :
  Json.loads room (96%N :: rest) = Raise JSONDecodeError.
Proof.
  unfold Json.loads, Json.loads_fuel. cbn [Json.starts].
  change (65279 =? 96)%N with false. cbv iota.
  replace (2 * length (96%N :: rest) + 2) with (S (2 * length rest + 3))
    by (cbn [length]; lia).
  reflexivity.
Qed.

Lemma space_not (c : char) (ws : text) :
  isspace c = false -> Forall (fun c => isspace c = true) ws -> c ∉ ws.
Proof.
  intros Hc Hws Hin. rewrite Forall_forall in Hws.
  apply Hws in Hin. congruence.
Qed.

(** [smart_parse] on a text that is not JSON itself and in which a pattern
    locates a text that decodes to a truthy value. *)
Lemma smart_parse_located (t g : text) (v : value) :
  Json.loads room t = Raise JSONDecodeError ->
  extract_from_markdown t = Some g ->
  Json.loads room g = Ok v ->
  truthy v = true ->
  smart_parse room t = Ok v.
Proof.
  intros Hd Hg Hv Ht. rewrite smart_parse_eq, Hd, Hg, Hv.
  unfold attempt. cbn [decoded mbind exc_bind]. by rewrite Ht.
Qed.

(** Nesting beyond the recursion room: one array inside the other, one
    more than can be entered. *)
Lemma scan_once_deep (depth fuel : nat) :
  2 * depth + 1 <= fuel ->
  Json.scan_once fuel depth (repeat 91%N (S depth)) = Json.Failed RecursionError.
Proof.
  revert fuel. induction depth as [|depth IH]; intros fuel Hf.
  - destruct fuel as [|fuel]; [lia|]. reflexivity.
  - destruct fuel as [|[|fuel]]; [lia..|].
    cbn [repeat Json.scan_once Json.skip_ws Json.parse_array].
    change (91 =? 34)%N with false. change (91 =? 123)%N with false.
    change (91 =? 91)%N with true. change (Json.is_ws 91%N) with false.
    change (91 =? 93)%N with false. cbv iota.
    change (91%N :: repeat 91%N depth) with (repeat 91%N (S depth)).
    rewrite IH by lia. reflexivity.
Qed.

Lemma loads_deep :
  Json.loads room (Examples.deep_array room) = Raise RecursionError.
Proof.
  unfold Json.loads, Examples.deep_array.
  change (repeat 91%N (S (S room))) with (91%N :: repeat 91%N (S room)) at 1 3.
  cbn [Json.starts Json.skip_ws].
  change (65279 =? 91)%N with false. change (Json.is_ws 91%N) with false.
  cbv iota. change (91%N :: repeat 91%N (S room)) with (repeat 91%N (S (S room))).
  rewrite scan_once_deep; [done|].
  unfold Json.loads_fuel. rewrite repeat_length. lia.
Qed.

End Extractor.

(** ** The tolerant JSON extractor *)

Section ExtractorClaims.
Import Re Spec JSONParser Examples.
Variable room : nat.

(** C1 (as amended): when direct parsing and both fenced-block searches
    fail, the fallback selects the text from the first opening brace to the
    first closing brace after it (not to the last one) and gives it to
    [json.loads]: [smart_parse] returns the value if it is truthy,
    [JSONExtractor.extract] returns the value, both return [None] when
    [json.loads] rejects the span with a [JSONDecodeError], whatever the
    span up to the last closing brace holds, and any other exception of
    [json.loads] escapes from both. *)
Theorem fallback_first_to_first (t : text) :
  Json.loads room t = Raise JSONDecodeError ->
  search fenced_json t = None ->
  search fenced t = None ->
  extract_from_markdown t = first_to_first t /\
  smart_parse room t =
    match first_to_first t with
    | Some g => attempt (Json.loads room g)
    | None => Ok VNone
    end /\
  JSONExtractor.extract room t =
    match first_to_first t with
    | Some g => decoded (Json.loads room g)
    | None => Ok VNone
    end /\
  (forall g, first_to_first t = Some g ->
     Json.loads room g = Raise JSONDecodeError ->
     smart_parse room t = Ok VNone /\ JSONExtractor.extract room t = Ok VNone).
Proof.
  intros Hd H1 H2.
  assert (He : extract_from_markdown t = first_to_first t).
  { unfold extract_from_markdown, patterns. cbn [first_match].
    rewrite H1, H2, search_braced. by destruct (first_to_first t). }
  assert (Hs : smart_parse room t =
    match first_to_first t with
    | Some g => attempt (Json.loads room g)
    | None => Ok VNone
    end).
  { rewrite smart_parse_eq, Hd, He. reflexivity. }
  assert (Hx : JSONExtractor.extract room t =
    match first_to_first t with
    | Some g => decoded (Json.loads room g)
    | None => Ok VNone
    end).
  { unfold JSONExtractor.extract. rewrite Hd. by apply extractor_try_patterns_eq. }
  split; [done|]. split; [done|]. split; [done|].
  intros g Hg Hbad. rewrite Hs, Hx, Hg, Hbad. done.
Qed.

End ExtractorClaims.

Lemma fallback_first_to_first_witness :
  Spec.first_to_first Examples.nested_text = Some Examples.nested_first_to_first /\
  JSONParser.smart_parse Examples.room Examples.nested_text = Ok VNone /\
  JSONExtractor.extract Examples.room Examples.nested_text = Ok VNone.
Proof.
  destruct (fallback_first_to_first Examples.room Examples.nested_text)
    as (_ & _ & _ & H); [vm_compute; reflexivity ..|].
  split; [vm_compute; reflexivity|].
  apply (H Examples.nested_first_to_first); vm_compute; reflexivity.
Defined.

(** C1 (as stated) fails: the span from the first opening brace to the last
    closing brace of [nested_text] is a valid JSON object, the span to the
    first closing brace is not, direct parsing and the fenced searches fail,
    and neither extractor returns the object. *)
Lemma greedy_fallback_counterexample :
  Json.loads Examples.room Examples.nested_text = Raise JSONDecodeError /\
  Re.search Re.fenced_json Examples.nested_text = None /\
  Re.search Re.fenced Examples.nested_text = None /\
  (exists g, Spec.first_to_last Examples.nested_text = Some g /\
             Json.loads Examples.room g = Ok Examples.nested_object) /\
  (exists g, Spec.first_to_first Examples.nested_text = Some g /\
             Json.loads Examples.room g = Raise JSONDecodeError) /\
  JSONParser.extract_from_markdown Examples.nested_text
    <> Spec.first_to_last Examples.nested_text /\
  JSONParser.smart_parse Examples.room Examples.nested_text
    <> Ok Examples.nested_object /\
  JSONExtractor.extract Examples.room Examples.nested_text
    <> Ok Examples.nested_object.
Proof.
  split; [vm_compute; reflexivity|].
  split; [vm_compute; reflexivity|].
  split; [vm_compute; reflexivity|].
  split.
  { exists Examples.nested_first_to_last. split; vm_compute; reflexivity. }
  split.
  { exists Examples.nested_first_to_first. split; vm_compute; reflexivity. }
  repeat split; vm_compute; discriminate.
Qed.

Section MoreExtractorClaims.
Import Re Spec JSONParser Examples.
Variable room : nat.

(** C3 fails where [json.loads] raises an exception that is not a
    [JSONDecodeError]: the [except] clause of [parse_json] names only that
    one.  The text [long_int], an int literal of 4301 digits, has no brace;
    the only attempt on it fails with the [ValueError] of the conversion,
    and the exception escapes from [smart_parse], as it does from
    [JSONExtractor.extract].  So does the [RecursionError] of a text that
    nests arrays beyond the recursion limit, whatever the limit is. *)
Theorem smart_parse_exception_escapes :
  first_to_first long_int = None /\
  extract_from_markdown long_int = None /\
  Json.loads room long_int = Raise ValueError /\
  parse_json room long_int = Raise ValueError /\
  smart_parse room long_int = Raise ValueError /\
  JSONExtractor.extract room long_int = Raise ValueError /\
  first_to_first (deep_array room) = None /\
  smart_parse room (deep_array room) = Raise RecursionError /\
  JSONExtractor.extract room (deep_array room) = Raise RecursionError.
Proof.
  assert (Hn : first_to_first (deep_array room) = None).
  { apply first_to_first_None. unfold deep_array.
    intros H%list_elem_of_In%repeat_spec. discriminate H. }
  split; [vm_compute; reflexivity|].
  split; [vm_compute; reflexivity|].
  split; [vm_compute; reflexivity|].
  split; [vm_compute; reflexivity|].
  split; [vm_compute; reflexivity|].
  split; [vm_compute; reflexivity|].
  split; [exact Hn|]. split.
  - rewrite smart_parse_eq, loads_deep. reflexivity.
  - unfold JSONExtractor.extract. by rewrite loads_deep.
Qed.

(** C4: the text of the object [{"a": 1}] in a fenced block, with or
    without the tag [json] and with any white space (a line break, as in
    the tests, or none) around the object, is parsed by [smart_parse] to
    the object that [json.loads] makes of the text alone. *)
Theorem fenced_round_trip (ws1 ws2 : text) :
  Forall (fun c => isspace c = true) ws1 ->
  Forall (fun c => isspace c = true) ws2 ->
  Json.loads room object_text = Ok object_value /\
  smart_parse room (str "```json" ++ ws1 ++ object_text ++ ws2 ++ str "```")
    = Ok object_value /\
  smart_parse room (str "```" ++ ws1 ++ object_text ++ ws2 ++ str "```")
    = Ok object_value.
Proof.
  intros H1 H2.
  assert (Hl : Json.loads room object_text = Ok object_value)
    by (vm_compute; reflexivity).
  assert (Hb : 125%N ∉ object_body).
  { apply (bool_decide_unpack _). vm_compute. reflexivity. }
  split; [done|]. split.
  - apply smart_parse_located with (g := object_text);
      [exact (loads_fence _ _)| |done|done].
    { apply located_fence. cbn [first_match].
      rewrite search_here with (g := object_text); [done|].
      apply (fenced_match (str "```json") ws1 (object_body) ws2); done. }
  - apply smart_parse_located with (g := object_text);
      [exact (loads_fence _ _)| |done|done].
    { apply located_fence. cbn [first_match].
      assert (search fenced_json
                (str "```" ++ ws1 ++ object_text ++ ws2 ++ str "```") = None) as ->.
      { destruct (search fenced_json _) as [g|] eqn:E; [|done].
        apply search_sublist in E.
        assert (106%N ∈ str "```" ++ ws1 ++ object_text ++ ws2 ++ str "```") as Hin.
        { eapply elem_of_sublist; [|exact E]. apply (bool_decide_unpack _).
          vm_compute. reflexivity. }
        rewrite !elem_of_app in Hin.
        destruct Hin as [Hin|[Hin|[Hin|[Hin|Hin]]]].
        - by apply (bool_decide_pack _) in Hin.
        - by apply space_not in Hin.
        - by apply (bool_decide_pack _) in Hin.
        - by apply space_not in Hin.
        - by apply (bool_decide_pack _) in Hin. }
      rewrite search_here with (g := object_text); [done|].
      apply (fenced_match (str "```") ws1 (object_body) ws2); done. }
Qed.

(** C5: [smart_parse] returns [None] for the text of the empty object,
    although [json.loads] decodes it: every result is checked for truth and
    the empty dictionary is not truthy.  So the result for the empty object
    is the result for a text that holds no JSON at all. *)
Theorem empty_object_is_failure :
  Json.loads room (str "{}") = Ok (VDict ∅) /\
  truthy (VDict ∅) = false /\
  smart_parse room (str "{}") = Ok VNone /\
  smart_parse room (str "{}") = smart_parse room (str "no json here") /\
  (forall t v, smart_parse room t = Ok v -> v = VNone \/ truthy v = true).
Proof.
  split; [vm_compute; reflexivity|].
  split; [vm_compute; reflexivity|].
  split; [vm_compute; reflexivity|].
  split; [vm_compute; reflexivity|].
  intros t v H. by apply (smart_parse_value room t).
Qed.

End MoreExtractorClaims.

Lemma fenced_round_trip_witness :
  JSONParser.smart_parse Examples.room
    (str "```json" ++ Examples.newline ++ Examples.object_text
       ++ Examples.newline ++ str "```")
    = Ok Examples.object_value /\
  JSONParser.smart_parse Examples.room
    (str "```" ++ Examples.newline ++ Examples.object_text
       ++ Examples.newline ++ str "```")
    = Ok Examples.object_value.
Proof.
  apply (fenced_round_trip Examples.room Examples.newline Examples.newline);
    repeat constructor.
Defined.

Lemma empty_object_is_failure_witness :
  VNone = VNone \/ truthy VNone = true.
Proof.
  destruct (empty_object_is_failure Examples.room) as (_ & _ & H & _ & Hall).
  exact (Hall (str "{}") VNone H).
Defined.

(** ** Conversion of ints to floats *)

Local Open Scope Z_scope.

Section Rounding.

Lemma iter_pos_nat {A} (f : A -> A) (p : positive) (x : A) :
  SpecFloat.iter_pos f p x = Nat.iter (Pos.to_nat p) f x.
Proof.
  revert x. induction p as [p IH|p IH|]; intros x; cbn [SpecFloat.iter_pos].
  - rewrite !IH, Pos2Nat.inj_xI, Nat.iter_succ_r.
    replace (2 * Pos.to_nat p)%nat with (Pos.to_nat p + Pos.to_nat p)%nat by lia.
    by rewrite Nat.iter_add.
  - rewrite !IH, Pos2Nat.inj_xO.
    replace (2 * Pos.to_nat p)%nat with (Pos.to_nat p + Pos.to_nat p)%nat by lia.
    by rewrite Nat.iter_add.
  - reflexivity.
Qed.

(** Shifting a positive mantissa right by fewer places than it has digits
    leaves a positive mantissa. *)
Lemma shr_iter_pos (k : nat) (r : shr_record) (q : positive) :
  shr_m r = Z.pos q ->
  Z.of_nat k < Z.pos (digits2_pos q) ->
  exists q', shr_m (Nat.iter k shr_1 r) = Z.pos q'
             /\ Z.pos (digits2_pos q') = Z.pos (digits2_pos q) - Z.of_nat k.
Proof.
  revert r q. induction k as [|k IH]; intros r q Hr Hk.
  - exists q. cbn. split; [done|lia].
  - destruct (IH r q Hr) as (q1 & H1 & H2); [lia|].
    rewrite Nat.iter_succ. destruct (Nat.iter k shr_1 r) as [m b s].
    cbn in H1. subst m.
    destruct q1 as [q1|q1|]; cbn [digits2_pos] in H2;
      try rewrite Pos2Z.inj_succ in H2.
    + exists q1. split; [reflexivity|lia].
    + exists q1. split; [reflexivity|lia].
    + lia.
Qed.

Lemma shr_fexp_pos (q : positive) (e : Z) (l : location) :
  -1074 <= e ->
  exists q', shr_m (fst (shr_fexp prec emax (Z.pos q) e l)) = Z.pos q'
             /\ -1074 <= snd (shr_fexp prec emax (Z.pos q) e l).
Proof.
  intros He. unfold shr_fexp, shr.
  set (r := shr_record_of_loc (Z.pos q) l).
  assert (Hr : shr_m r = Z.pos q) by (subst r; by destruct l as [|[]]).
  cbn [Zdigits2].
  destruct (fexp prec emax (Z.pos (digits2_pos q) + e) - e) as [|n|n] eqn:En;
    cbn [fst snd]; try (exists q; split; [done|lia]).
  rewrite iter_pos_nat.
  destruct (shr_iter_pos (Pos.to_nat n) r q Hr) as (q' & H1 & _).
  { rewrite positive_nat_Z, <- En. unfold fexp, emin, prec, emax. lia. }
  exists q'. split; [done|lia].
Qed.

Lemma round_nearest_even_pos (q : positive) (l : location) :
  exists q', round_nearest_even (Z.pos q) l = Z.pos q'.
Proof.
  destruct l as [|[]]; cbn [round_nearest_even];
    try destruct (Z.even (Z.pos q)); eexists; reflexivity.
Qed.

(** Rounding a non-zero mantissa keeps the sign: the result is a finite
    number or an infinity of that sign. *)
Lemma binary_round_aux_sign (sx : bool) (q : positive) (e : Z) (l : location) :
  -1074 <= e ->
  (exists m e', binary_round_aux prec emax sx (Z.pos q) e l = S754_finite sx m e')
  \/ binary_round_aux prec emax sx (Z.pos q) e l = S754_infinity sx.
Proof.
  intros He. unfold binary_round_aux.
  destruct (shr_fexp_pos q e l He) as (q1 & H1 & H1').
  destruct (shr_fexp prec emax (Z.pos q) e l) as [mrs' e'].
  cbn [fst snd] in H1, H1'. rewrite H1.
  destruct (round_nearest_even_pos q1 (loc_of_shr_record mrs')) as (q2 & ->).
  destruct (shr_fexp_pos q2 e' loc_Exact H1') as (q3 & H3 & _).
  destruct (shr_fexp prec emax (Z.pos q2) e' loc_Exact) as [mrs'' e''].
  cbn [fst] in H3. rewrite H3.
  destruct (e'' <=? emax - prec); eauto.
Qed.

Lemma binary_round_sign (sx : bool) (q : positive) :
  (exists m e', binary_round prec emax sx q 0 = S754_finite sx m e')
  \/ binary_round prec emax sx q 0 = S754_infinity sx.
Proof.
  unfold binary_round.
  destruct (shl_align q 0 (fexp prec emax (Z.pos (digits2_pos q) + 0)))
    as [mz ez] eqn:E.
  apply binary_round_aux_sign.
  unfold shl_align in E.
  destruct (fexp prec emax (Z.pos (digits2_pos q) + 0) - 0) eqn:F;
    injection E as <- <-; try lia.
  unfold fexp, emin, prec, emax in *. lia.
Qed.

(** [float(z)] for a negative int is a negative float, for a non-negative
    int a float that is not negative. *)
Lemma float_of_int_neg (z : Z) (f : float) :
  z < 0 -> float_of_int z = Ok f -> fltb f fzero = true.
Proof.
  unfold float_of_int, round_Z, binary_normalize.
  destruct z as [|p|p]; try lia. intros _.
  destruct (binary_round_sign true p) as [(m & e & ->)| ->]; cbn; [|discriminate].
  intros H. by injection H as <-.
Qed.

Lemma float_of_int_nonneg (z : Z) (f : float) :
  0 <= z -> float_of_int z = Ok f -> fltb f fzero = false.
Proof.
  unfold float_of_int, round_Z, binary_normalize.
  destruct z as [|p|p]; try lia; intros _.
  - cbn. intros H. by injection H as <-.
  - destruct (binary_round_sign false p) as [(m & e & ->)| ->]; cbn; [|discriminate].
    intros H. by injection H as <-.
Qed.

End Rounding.

(** ** The order of ints and floats *)

Section Order.
Import Helpers Spec.

Lemma digits2_bounds (m : positive) :
  2 ^ (Z.pos (digits2_pos m) - 1) <= Z.pos m < 2 ^ Z.pos (digits2_pos m).
Proof.
  induction m as [m IH|m IH|]; cbn [digits2_pos];
    try rewrite Pos2Z.inj_succ; [| |cbn; lia].
  all: set (d := Z.pos (digits2_pos m)) in *.
  all: assert (0 < d) by (subst d; lia); clearbody d.
  all: assert (Hd : 2 ^ d = 2 * 2 ^ (d - 1))
         by (rewrite <- Z.pow_succ_r by lia; f_equal; lia).
  all: replace (Z.succ d - 1) with d by lia.
  all: rewrite Z.pow_succ_r by lia.
  - change (Z.pos m~1) with (2 * Z.pos m + 1). generalize dependent (2 ^ (d - 1)).
    generalize (2 ^ d). intros. lia.
  - change (Z.pos m~0) with (2 * Z.pos m). generalize dependent (2 ^ (d - 1)).
    generalize (2 ^ d). intros. lia.
Qed.

(** Of two binary64 mantissas the one with the smaller exponent is the
    smaller number. *)
Lemma bounded_exponents (m1 m2 : positive) (e1 e2 : Z) :
  bounded prec emax m1 e1 = true -> bounded prec emax m2 e2 = true ->
  e1 < e2 -> Z.pos m1 < Z.pos m2 * 2 ^ (e2 - e1).
Proof.
  unfold bounded, canonical_mantissa, fexp, emin, prec, emax.
  intros [H1 _]%andb_true_iff [H2 _]%andb_true_iff He.
  apply Z.eqb_eq in H1, H2.
  pose proof (digits2_bounds m1) as [_ B1].
  pose proof (digits2_bounds m2) as [B2 _].
  assert (D1 : Z.pos (digits2_pos m1) <= 53) by lia.
  assert (D2 : Z.pos (digits2_pos m2) = 53) by lia.
  rewrite D2 in B2.
  assert (Z.pos m1 < 2 ^ 53).
  { eapply Z.lt_le_trans; [exact B1|]. apply Z.pow_le_mono_r; lia. }
  assert (2 ^ 1 <= 2 ^ (e2 - e1)) by (apply Z.pow_le_mono_r; lia).
  change (2 ^ (53 - 1)) with 4503599627370496 in B2.
  change (2 ^ 53) with 9007199254740992 in *. change (2 ^ 1) with 2 in *.
  nia.
Qed.

Lemma below_scale (v1 e1 v2 e2 E : Z) :
  E <= e1 -> E <= e2 ->
  below (Finite v1 e1) (Finite v2 e2) <-> v1 * 2 ^ (e1 - E) < v2 * 2 ^ (e2 - E).
Proof.
  intros H1 H2. cbn [below]. set (m := Z.min e1 e2).
  assert (Hm : E <= m) by lia.
  replace (e1 - E) with ((e1 - m) + (m - E)) by lia.
  replace (e2 - E) with ((e2 - m) + (m - E)) by lia.
  rewrite !Z.pow_add_r by lia.
  assert (0 < 2 ^ (m - E)) by (apply Z.pow_pos_nonneg; lia).
  split; intros H'; nia.
Qed.

Lemma below_trans (p q r : place) : below p q -> below q r -> below p r.
Proof.
  destruct p as [|v1 e1|], q as [|v2 e2|], r as [|v3 e3|]; try done.
  set (E := Z.min e1 (Z.min e2 e3)).
  rewrite (below_scale v1 e1 v2 e2 E), (below_scale v2 e2 v3 e3 E),
    (below_scale v1 e1 v3 e3 E) by lia. lia.
Qed.

Lemma below_irrefl (p : place) : ~ below p p.
Proof. destruct p as [|v e|]; cbn; lia. Qed.

Lemma less_trans (x y z : number) : less x y -> less y z -> less x z.
Proof.
  intros (p & q & Hp & Hq & H1) (q' & r & Hq' & Hr & H2).
  rewrite Hq in Hq'. simplify_eq. exists p, r. eauto using below_trans.
Qed.

Lemma less_irrefl (x : number) : ~ less x x.
Proof.
  intros (p & q & Hp & Hq & H). rewrite Hp in Hq. simplify_eq.
  by apply below_irrefl in H.
Qed.

Lemma pow_pos (e : Z) : 0 <= e -> 0 < 2 ^ e.
Proof. intros. by apply Z.pow_pos_nonneg. Qed.

(** The comparison of two floats is the comparison of the numbers they
    stand for. *)
Lemma fltb_less (f g : float) :
  valid_binary prec emax f = true -> valid_binary prec emax g = true ->
  fltb f g = true <-> less (Float f) (Float g).
Proof.
  intros Hf Hg. unfold less, fltb, SFltb.
  destruct f as [sf|sf| |sf mf ef], g as [sg|sg| |sg mg eg];
    cbn [SFcompare place_of]; try (split; [done|]; intros (p & q & ? & ? & ?); done).
  - (* zero, zero *)
    split; [done|]. intros (p & q & ? & ? & H). simplify_eq. cbn in H. lia.
  - (* zero, inf *)
    destruct sg; split; try done.
    + intros (p & q & ? & ? & H). by simplify_eq.
    + intros _. by exists (Finite 0 0), Top.
  - (* zero, finite *)
    destruct sg; split; try done.
    + intros (p & q & ? & ? & H). simplify_eq. cbn in H.
      pose proof (pow_pos (eg - Z.min 0 eg)). nia.
    + intros _. eexists _, _. split; [done|]. split; [done|]. cbn.
      pose proof (pow_pos (eg - Z.min 0 eg)). nia.
  - (* inf, zero *)
    destruct sf; split; try done.
    + intros _. by exists Bottom, (Finite 0 0).
    + intros (p & q & ? & ? & H). by simplify_eq.
  - (* inf, inf *)
    destruct sf, sg; split; try done;
      try (intros (p & q & ? & ? & H); by simplify_eq).
    intros _. by exists Bottom, Top.
  - (* inf, finite *)
    destruct sf; split; try done.
    + intros _. eexists _, _. by split; [done|split; [done|]].
    + intros (p & q & ? & ? & H). by simplify_eq.
  - (* finite, zero *)
    destruct sf; split; try done.
    + intros _. eexists _, _. split; [done|]. split; [done|]. cbn.
      pose proof (pow_pos (ef - Z.min ef 0)). nia.
    + intros (p & q & ? & ? & H). simplify_eq. cbn in H.
      pose proof (pow_pos (ef - Z.min ef 0)). nia.
  - (* finite, inf *)
    destruct sg; split; try done.
    + intros (p & q & ? & ? & H). by simplify_eq.
    + intros _. eexists _, _. by split; [done|split; [done|]].
  - (* finite, finite *)
    cbn [valid_binary] in Hf, Hg.
    assert (Hiff : forall P : Prop,
      (P <-> below (Finite (if sf then Z.neg mf else Z.pos mf) ef)
                   (Finite (if sg then Z.neg mg else Z.pos mg) eg)) ->
      (P <-> exists p q,
         Some (Finite (if sf then Z.neg mf else Z.pos mf) ef) = Some p /\
         Some (Finite (if sg then Z.neg mg else Z.pos mg) eg) = Some q /\
         below p q)).
    { intros P HP. rewrite HP. split.
      - intros H. eexists _, _. eauto.
      - intros (p & q & ? & ? & H). by simplify_eq. }
    apply Hiff. rewrite Pos.compare_cont_spec. cbn [Pos.switch_Eq].
    rewrite (below_scale _ ef _ eg (Z.min ef eg)) by lia.
    pose proof (pow_pos (ef - Z.min ef eg)).
    pose proof (pow_pos (eg - Z.min ef eg)).
    destruct (Z.compare_spec ef eg) as [->|Hlt|Hgt].
    + rewrite Z.min_id, Z.sub_diag. change (2 ^ 0) with 1.
      rewrite !Z.mul_1_r.
      destruct (Pos.compare_spec mf mg) as [->|Hm|Hm];
        destruct sf, sg; cbn [CompOpp]; split; try done; lia.
    + pose proof (bounded_exponents mf mg ef eg Hf Hg Hlt).
      rewrite Z.min_l, Z.sub_diag by lia. change (2 ^ 0) with 1.
      destruct sf, sg; split; try done; nia.
    + pose proof (bounded_exponents mg mf eg ef Hg Hf ltac:(lia)).
      rewrite Z.min_r, Z.sub_diag by lia. change (2 ^ 0) with 1.
      destruct sf, sg; split; try done; nia.
Qed.

Lemma finite_iff (P : Prop) (v1 e1 v2 e2 : Z) :
  (P <-> below (Finite v1 e1) (Finite v2 e2)) ->
  (P <-> exists p q, Some (Finite v1 e1) = Some p /\ Some (Finite v2 e2) = Some q
                     /\ below p q).
Proof.
  intros HP. rewrite HP. split.
  - intros H. eexists _, _. eauto.
  - intros (p & q & ? & ? & H). by simplify_eq.
Qed.

(** [a < b] is the order of the numbers: the comparison of an int with a
    float is exact. *)
Lemma lt_less (a b : number) :
  valid_number a -> valid_number b -> lt a b = true <-> less a b.
Proof.
  destruct a as [x|f], b as [y|g]; cbn [valid_number lt]; intros Ha Hb.
  - unfold less. cbn [place_of]. apply finite_iff. rewrite Z.ltb_lt, (below_scale _ 0 _ 0 0) by lia.
      change (2 ^ (0 - 0)) with 1. lia.
  - unfold less. destruct g as [s|s| |s m e]; cbn [int_lt_float place_of].
    + apply finite_iff. rewrite Z.ltb_lt, (below_scale _ 0 _ 0 0) by lia.
      change (2 ^ (0 - 0)) with 1. lia.
    + destruct s; cbn; split; try done.
      * intros (p & q & ? & ? & H). by simplify_eq.
      * intros _. eexists _, _. by split; [done|split; [done|]].
    + split; [done|]. intros (p & q & ? & ? & H). done.
    + apply finite_iff. rewrite (below_scale _ 0 _ e (Z.min 0 e)) by lia.
      destruct (Z.leb_spec 0 e).
      * rewrite Z.min_l, !Z.sub_0_r by lia. change (2 ^ 0) with 1.
        by rewrite Z.ltb_lt, Z.mul_1_r.
      * rewrite Z.min_r, Z.sub_diag by lia. change (2 ^ 0) with 1.
        rewrite Z.ltb_lt. replace (0 - e) with (- e) by lia.
        rewrite !Z.mul_1_r. reflexivity.
  - unfold less. destruct f as [s|s| |s m e]; cbn [float_lt_int place_of].
    + apply finite_iff. rewrite Z.ltb_lt, (below_scale _ 0 _ 0 0) by lia.
      change (2 ^ (0 - 0)) with 1. lia.
    + destruct s; cbn; split; try done.
      * intros _. eexists _, _. by split; [done|split; [done|]].
      * intros (p & q & ? & ? & H). by simplify_eq.
    + split; [done|]. intros (p & q & ? & ? & H). done.
    + apply finite_iff. rewrite (below_scale _ e _ 0 (Z.min e 0)) by lia.
      destruct (Z.leb_spec 0 e).
      * rewrite Z.min_r, !Z.sub_0_r by lia. change (2 ^ 0) with 1.
        by rewrite Z.ltb_lt, Z.mul_1_r.
      * rewrite Z.min_l, Z.sub_diag by lia. change (2 ^ 0) with 1.
        rewrite Z.ltb_lt. replace (0 - e) with (- e) by lia.
        rewrite !Z.mul_1_r. reflexivity.
  - by apply fltb_less.
Qed.

End Order.

(** ** Ints that [float] can convert *)

Section FiniteFloats.

Lemma digits2_le (q : positive) (k : Z) :
  0 <= k -> Z.pos q < 2 ^ k -> Z.pos (digits2_pos q) <= k.
Proof.
  intros Hk Hq. pose proof (digits2_bounds q) as [Hl _].
  destruct (Z.le_gt_cases (Z.pos (digits2_pos q)) k) as [|Hgt]; [done|].
  assert (2 ^ k <= 2 ^ (Z.pos (digits2_pos q) - 1))
    by (apply Z.pow_le_mono_r; lia).
  lia.
Qed.

Lemma digits2_iter (q : positive) (p : positive) :
  Z.pos (digits2_pos (Pos.iter xO q p)) = Z.pos (digits2_pos q) + Z.pos p.
Proof.
  induction p as [|p IH] using Pos.peano_ind.
  - cbn. lia.
  - rewrite Pos.iter_succ. cbn [digits2_pos]. lia.
Qed.

(** The first shift of the rounding: the mantissa stays positive, the
    exponent is the larger of the given and the canonical one, and
    mantissa and exponent together do not grow. *)
Lemma shr_fexp_digits (q : positive) (e : Z) (l : location) :
  -1074 <= e ->
  exists q',
    shr_m (fst (shr_fexp prec emax (Z.pos q) e l)) = Z.pos q' /\
    snd (shr_fexp prec emax (Z.pos q) e l)
      = Z.max e (fexp prec emax (Z.pos (digits2_pos q) + e)) /\
    Z.pos (digits2_pos q') + snd (shr_fexp prec emax (Z.pos q) e l)
      = Z.pos (digits2_pos q) + e.
Proof.
  intros He. unfold shr_fexp, shr.
  set (r := shr_record_of_loc (Z.pos q) l).
  assert (Hr : shr_m r = Z.pos q) by (subst r; by destruct l as [|[]]).
  cbn [Zdigits2].
  destruct (fexp prec emax (Z.pos (digits2_pos q) + e) - e) as [|n|n] eqn:En;
    cbn [fst snd]; try (exists q; split; [done|]; split; lia).
  rewrite iter_pos_nat.
  destruct (shr_iter_pos (Pos.to_nat n) r q Hr) as (q' & H1 & H2).
  { rewrite positive_nat_Z, <- En. unfold fexp, emin, prec, emax. lia. }
  exists q'. split; [done|]. rewrite positive_nat_Z in H2. split; lia.
Qed.

Lemma round_nearest_even_digits (q : positive) (l : location) :
  exists q', round_nearest_even (Z.pos q) l = Z.pos q' /\
             Z.pos (digits2_pos q') <= Z.pos (digits2_pos q) + 1.
Proof.
  assert (Hs : Z.pos (digits2_pos (q + 1)) <= Z.pos (digits2_pos q) + 1).
  { apply digits2_le; [lia|]. pose proof (digits2_bounds q) as [_ H].
    rewrite Z.pow_add_r by lia. change (2 ^ 1) with 2. lia. }
  destruct l as [|[]]; cbn [round_nearest_even];
    try destruct (Z.even (Z.pos q)); eexists; (split; [reflexivity|lia]).
Qed.

(** Rounding a mantissa of magnitude below [2 ^ 1023] gives a finite
    number. *)
Lemma binary_round_aux_finite (sx : bool) (q : positive) (e : Z) (l : location) :
  -1074 <= e <= 0 -> Z.pos (digits2_pos q) + e <= 1023 ->
  exists m e', binary_round_aux prec emax sx (Z.pos q) e l = S754_finite sx m e'.
Proof.
  intros He Hd. unfold binary_round_aux.
  destruct (shr_fexp_digits q e l) as (q1 & H1 & H1e & H1d); [lia|].
  destruct (shr_fexp prec emax (Z.pos q) e l) as [mrs' e'].
  cbn [fst snd] in H1, H1e, H1d. rewrite H1.
  destruct (round_nearest_even_digits q1 (loc_of_shr_record mrs'))
    as (q2 & -> & H2).
  assert (He' : -1074 <= e' <= 970).
  { rewrite H1e. unfold fexp, emin, prec, emax. lia. }
  destruct (shr_fexp_digits q2 e' loc_Exact) as (q3 & H3 & H3e & _); [lia|].
  destruct (shr_fexp prec emax (Z.pos q2) e' loc_Exact) as [mrs'' e''].
  cbn [fst snd] in H3, H3e. rewrite H3.
  assert (e'' <= emax - prec) as ->%Z.leb_le; [|eauto].
  rewrite H3e. unfold fexp, emin, prec, emax. lia.
Qed.

Lemma binary_round_finite (sx : bool) (q : positive) :
  Z.pos q < 2 ^ 1023 ->
  exists m e', binary_round prec emax sx q 0 = S754_finite sx m e'.
Proof.
  intros Hq. unfold binary_round.
  assert (Hd : Z.pos (digits2_pos q) <= 1023) by (apply digits2_le; [lia|done]).
  destruct (shl_align q 0 (fexp prec emax (Z.pos (digits2_pos q) + 0)))
    as [mz ez] eqn:E.
  unfold shl_align in E.
  destruct (fexp prec emax (Z.pos (digits2_pos q) + 0) - 0) as [|n|n] eqn:F;
    injection E as <- <-.
  - apply binary_round_aux_finite; lia.
  - apply binary_round_aux_finite; lia.
  - apply binary_round_aux_finite.
    + unfold fexp, emin, prec, emax in *. lia.
    + rewrite digits2_iter. unfold fexp, emin, prec, emax in *. lia.
Qed.

(** [float(z)] does not overflow below [2 ^ 1023] in absolute value. *)
Lemma float_of_int_finite (z : Z) :
  Z.abs z < 2 ^ 1023 -> exists f, float_of_int z = Ok f.
Proof.
  intros Hz. unfold float_of_int, round_Z, binary_normalize.
  destruct z as [|q|q].
  - eexists. reflexivity.
  - destruct (binary_round_finite false q) as (m & e & ->); [lia|]. eauto.
  - destruct (binary_round_finite true q) as (m & e & ->); [lia|]. eauto.
Qed.

End FiniteFloats.

(** ** The validation functions *)

Section ValidationClaims.
Import Validation Spec Examples.
Variable float_of_str : text -> option float.
Variable container_error : value -> option exception.

Lemma first_missing_None (fields : list text) (d : gmap text value) :
  has_fields fields d -> first_missing fields d = None.
Proof.
  induction 1 as [|k fields [v Hv] _ IH]; cbn; [done|]. by rewrite Hv.
Qed.

Lemma first_missing_Some (fields : list text) (d : gmap text value) (k : text) :
  first_missing fields d = Some k -> k ∈ fields /\ d !! k = None.
Proof.
  induction fields as [|f fields IH]; cbn; [done|].
  destruct (d !! f) eqn:E.
  - intros H. destruct (IH H). split; [by right|done].
  - intros H. simplify_eq. split; [left|done].
Qed.

(** A value that is truthy and whose text is not blank passes the check of
    the name and of the image path. *)
Lemma falsy_or_blank_false (v : value) :
  truthy v = true -> str_strip_truthy container_error v = Ok true ->
  falsy_or_blank container_error v = Ok false.
Proof. intros Ht Hs. unfold falsy_or_blank. by rewrite Ht, Hs. Qed.

(** C2 fails for the listing validator: a listing whose title is an int
    makes [len] raise a [TypeError], which nothing catches. *)
Theorem validate_listing_data_raises :
  validate_listing_data int_title_listing = Raise TypeError.
Proof. vm_compute. reflexivity. Qed.

(** C6 fails for a price beyond the float range: [float] raises an
    [OverflowError], which the [except] clause does not list. *)
Theorem validate_product_data_overflow :
  validate_product_data float_of_str container_error
    (product widget (VInt (10 ^ 400)) widget_jpg)
  = Raise OverflowError.
Proof. vm_compute. reflexivity. Qed.

(** C7 (as amended): for a product dictionary with all required fields, a
    name that is truthy and whose text [str(name)] can be made and is not
    blank after stripping, and a price that is a negative float, or a
    negative int within the float range, the validator returns [False] and
    the message "Price cannot be negative". *)
Theorem negative_price_rejected (d : gmap text value) (name price : value) :
  has_fields product_fields d ->
  d !! str "name" = Some name ->
  truthy name = true ->
  str_strip_truthy container_error name = Ok true ->
  d !! str "price" = Some price ->
  negative_price price ->
  validate_product_data float_of_str container_error d
  = Ok (false, Some (str "Price cannot be negative")).
Proof.
  intros Hf Hn Ht Hs Hp Hneg. unfold validate_product_data.
  rewrite (first_missing_None _ _ Hf). unfold getitem.
  rewrite Hn. cbn [mbind exc_bind].
  rewrite (falsy_or_blank_false name Ht Hs). cbn [mbind exc_bind].
  rewrite Hp. cbn [mbind exc_bind].
  destruct price as [| |z|f| | |]; cbn in Hneg; try done; cbn [float_of].
  - destruct Hneg as [Hz Hr].
    destruct (float_of_int z) as [f|e] eqn:E; [|done].
    by rewrite (float_of_int_neg z f Hz E).
  - by rewrite Hneg.
Qed.

End ValidationClaims.

(** C7 (as stated) fails: a name of one blank is not empty, the price is
    negative, and the message is the one for an empty name. *)
Lemma blank_name_counterexample :
  Validation.validate_product_data Examples.no_str_price Examples.no_container
    (Examples.product (VStr (str " ")) (VInt (-1)) Examples.widget_jpg)
  = Ok (false, Some (str "Product name cannot be empty")) /\
  str "Product name cannot be empty" <> str "Price cannot be negative".
Proof. split; vm_compute; [reflexivity|discriminate]. Qed.

Lemma negative_price_rejected_witness :
  Validation.validate_product_data Examples.no_str_price Examples.no_container
    (Examples.product Examples.widget (VFloat Examples.minus_ten) Examples.widget_jpg)
  = Ok (false, Some (str "Price cannot be negative")).
Proof.
  apply (negative_price_rejected Examples.no_str_price Examples.no_container _
           Examples.widget (VFloat Examples.minus_ten)).
  - repeat constructor; vm_compute; eauto.
  - vm_compute; reflexivity.
  - reflexivity.
  - vm_compute; reflexivity.
  - vm_compute; reflexivity.
  - vm_compute; reflexivity.
Defined.

(** ** The utility helpers *)

Section HelperClaims.
Import Helpers Spec.

(** C8: a list of 25 items in batches of 5 gives 5 groups of 5 items; a list
    of 10 items in batches of 3 gives 4 groups of 3, 3, 3 and 1 items; in
    both cases the groups, in order, make up the list. *)
Theorem batch_items_examples {A} (items : list A) :
  (length items = 25%nat ->
   exists groups, batch_items items 5 = Ok groups /\
     length groups = 5%nat /\
     Forall (fun g => length g = 5%nat) groups /\
     concat groups = items) /\
  (length items = 10%nat ->
   exists groups, batch_items items 3 = Ok groups /\
     map length groups = [3; 3; 3; 1]%nat /\
     concat groups = items).
Proof.
  split; intros H.
  - do 26 (destruct items as [|? items]; try discriminate).
    eexists. split; [vm_compute; reflexivity|]. repeat split; repeat constructor.
  - do 11 (destruct items as [|? items]; try discriminate).
    eexists. split; [vm_compute; reflexivity|]. repeat split.
Qed.

Lemma batch_items_examples_witness :
  (exists groups, batch_items (seq 1 25) 5 = Ok groups /\
     length groups = 5%nat /\
     Forall (fun g => length g = 5%nat) groups /\
     concat groups = seq 1 25) /\
  (exists groups, batch_items (seq 1 10) 3 = Ok groups /\
     map length groups = [3; 3; 3; 1]%nat /\
     concat groups = seq 1 10).
Proof.
  split.
  - apply (batch_items_examples (seq 1 25)). reflexivity.
  - apply (batch_items_examples (seq 1 10)). reflexivity.
Defined.

Lemma float_of_int_raise (z : Z) (e : exception) :
  float_of_int z = Raise e -> e = OverflowError.
Proof. unfold float_of_int. case_match; congruence. Qed.

Lemma float_of_int_pos (z : Z) (f : float) :
  0 < z -> float_of_int z = Ok f -> feqb f fzero = false.
Proof.
  unfold float_of_int, round_Z, binary_normalize.
  destruct z as [|p|p]; try lia; intros _.
  destruct (binary_round_sign false p) as [(m & e & ->)| ->]; cbn; [|discriminate].
  intros H. by injection H as <-.
Qed.

Lemma truediv_float (a : number) (n : Z) (r : number) :
  truediv a n = Ok r -> exists f, r = Float f.
Proof.
  unfold truediv. destruct a as [x|f]; cbn.
  - destruct (int_truediv x n); cbn; intros; simplify_eq; eauto.
  - destruct (float_of_int n); cbn; [|done].
    case_match; intros; simplify_eq; eauto.
Qed.

Lemma min_from_elem (first : number) (rest : list number) :
  min_from first rest ∈ first :: rest.
Proof.
  unfold min_from. revert first.
  induction rest as [|x rest IH]; intros first; cbn; [left|].
  destruct (lt x first).
  - right. apply IH.
  - specialize (IH first). apply elem_of_cons in IH as [->|IH]; [left|].
    right; by right.
Qed.

Lemma max_from_elem (first : number) (rest : list number) :
  max_from first rest ∈ first :: rest.
Proof.
  unfold max_from. revert first.
  induction rest as [|x rest IH]; intros first; cbn; [left|].
  destruct (lt first x).
  - right. apply IH.
  - specialize (IH first). apply elem_of_cons in IH as [->|IH]; [left|].
    right; by right.
Qed.

(** C9 (as stated) fails on a list of one int beyond the float range: the
    mean overflows and an [OverflowError] escapes. *)
Lemma statistics_overflow_counterexample :
  calculate_statistics [Int (10 ^ 400)] = Raise OverflowError.
Proof. vm_compute. reflexivity. Qed.

Lemma min_from_least (first : number) (rest : list number) :
  Forall valid_number (first :: rest) ->
  Forall (fun x => ~ less x (min_from first rest)) (first :: rest).
Proof.
  unfold min_from. intros Hv.
  assert (H : forall (items seen : list number) (cur : number),
    valid_number cur -> Forall valid_number items ->
    (forall x, x ∈ seen -> ~ less x cur) ->
    forall x, x ∈ seen ++ cur :: items ->
      ~ less x (fold_left (fun cur item => if lt item cur then item else cur)
                  items cur)).
  { induction items as [|item items IH]; intros seen cur Hc Hi Hs x Hx.
    - cbn. apply elem_of_app in Hx as [Hx|Hx]; [by apply Hs|].
      apply list_elem_of_singleton in Hx as ->. apply less_irrefl.
    - cbn [fold_left]. apply Forall_cons in Hi as [Hitem Hi].
      assert (Hx' : x ∈ seen \/ x = cur \/ x = item \/ x ∈ items).
      { rewrite elem_of_app, !elem_of_cons in Hx. tauto. }
      destruct (lt item cur) eqn:E.
      + apply lt_less in E; [|done..].
        apply (IH (seen ++ [cur])); [done..| |].
        * intros y Hy. apply elem_of_app in Hy as [Hy|Hy].
          -- intros Hlt. apply (Hs y Hy). by apply (less_trans y item cur).
          -- apply list_elem_of_singleton in Hy as ->. intros Hlt.
             apply (less_irrefl cur). by apply (less_trans cur item cur).
        * rewrite !elem_of_app, !elem_of_cons, elem_of_nil. tauto.
      + assert (~ less item cur) by (rewrite <- lt_less by done; congruence).
        apply (IH (seen ++ [item])); [done..| |].
        * intros y Hy. apply elem_of_app in Hy as [Hy|Hy]; [by apply Hs|].
          by apply list_elem_of_singleton in Hy as ->.
        * rewrite !elem_of_app, !elem_of_cons, elem_of_nil. tauto. }
  apply Forall_cons in Hv as [Hf Hr]. apply Forall_forall. intros x Hx.
  apply (H rest [] first); [done..| |done].
  intros y Hy. by apply elem_of_nil in Hy.
Qed.

Lemma max_from_greatest (first : number) (rest : list number) :
  Forall valid_number (first :: rest) ->
  Forall (fun x => ~ less (max_from first rest) x) (first :: rest).
Proof.
  unfold max_from. intros Hv.
  assert (H : forall (items seen : list number) (cur : number),
    valid_number cur -> Forall valid_number items ->
    (forall x, x ∈ seen -> ~ less cur x) ->
    forall x, x ∈ seen ++ cur :: items ->
      ~ less (fold_left (fun cur item => if lt cur item then item else cur)
                items cur) x).
  { induction items as [|item items IH]; intros seen cur Hc Hi Hs x Hx.
    - cbn. apply elem_of_app in Hx as [Hx|Hx]; [by apply Hs|].
      apply list_elem_of_singleton in Hx as ->. apply less_irrefl.
    - cbn [fold_left]. apply Forall_cons in Hi as [Hitem Hi].
      assert (Hx' : x ∈ seen \/ x = cur \/ x = item \/ x ∈ items).
      { rewrite elem_of_app, !elem_of_cons in Hx. tauto. }
      destruct (lt cur item) eqn:E.
      + apply lt_less in E; [|done..].
        apply (IH (seen ++ [cur])); [done..| |].
        * intros y Hy. apply elem_of_app in Hy as [Hy|Hy].
          -- intros Hlt. apply (Hs y Hy). by apply (less_trans cur item y).
          -- apply list_elem_of_singleton in Hy as ->. intros Hlt.
             apply (less_irrefl cur). by apply (less_trans cur item cur).
        * rewrite !elem_of_app, !elem_of_cons, elem_of_nil. tauto.
      + assert (~ less cur item) by (rewrite <- lt_less by done; congruence).
        apply (IH (seen ++ [item])); [done..| |].
        * intros y Hy. apply elem_of_app in Hy as [Hy|Hy]; [by apply Hs|].
          by apply list_elem_of_singleton in Hy as ->.
        * rewrite !elem_of_app, !elem_of_cons, elem_of_nil. tauto. }
  apply Forall_cons in Hv as [Hf Hr]. apply Forall_forall. intros x Hx.
  apply (H rest [] first); [done..| |done].
  intros y Hy. by apply elem_of_nil in Hy.
Qed.

(** An addition raises exactly when it converts an int that is beyond the
    float range. *)
Lemma add_raise_iff (a b : number) (e : exception) :
  add a b = Raise e <-> e = OverflowError /\ overflows a b.
Proof.
  destruct a as [x|f], b as [y|g]; cbn [add overflows].
  - split; [done|]. by intros [_ []].
  - destruct (float_of_int x) as [h|e'] eqn:E; cbn [mbind exc_bind].
    + split; [done|]. by intros [_ ?].
    + pose proof (float_of_int_raise _ _ E) as ->.
      split; [intros; by simplify_eq|]. by intros [-> _].
  - destruct (float_of_int y) as [h|e'] eqn:E; cbn [mbind exc_bind].
    + split; [done|]. by intros [_ ?].
    + pose proof (float_of_int_raise _ _ E) as ->.
      split; [intros; by simplify_eq|]. by intros [-> _].
  - split; [done|]. by intros [_ []].
Qed.

Lemma sum_from_app (acc : number) (l1 l2 : list number) :
  sum_from acc (l1 ++ l2) = acc' ← sum_from acc l1; sum_from acc' l2.
Proof.
  revert acc. induction l1 as [|x l1 IH]; intros acc; [done|].
  cbn [app sum_from]. destruct (add acc x) as [acc1|e]; cbn [mbind exc_bind];
    [apply IH|done].
Qed.

(** The sum raises exactly when, after some items, the sum so far and the
    next item make an addition that raises. *)
Lemma sum_from_raise_iff (numbers : list number) (acc : number) (e : exception) :
  sum_from acc numbers = Raise e <->
  exists pre x post acc',
    numbers = pre ++ x :: post /\ sum_from acc pre = Ok acc' /\
    add acc' x = Raise e.
Proof.
  split.
  - revert acc. induction numbers as [|x rest IH]; intros acc; cbn [sum_from];
      [done|].
    destruct (add acc x) as [acc1|e'] eqn:E; cbn [mbind exc_bind].
    + intros (pre & y & post & acc' & -> & Hs & Ha)%IH.
      exists (x :: pre), y, post, acc'. split; [done|]. split; [|done].
      cbn [sum_from]. by rewrite E.
    + intros H. simplify_eq. by exists [], x, rest, acc.
  - intros (pre & x & post & acc' & -> & Hs & Ha).
    rewrite sum_from_app, Hs. cbn [mbind exc_bind sum_from]. by rewrite Ha.
Qed.

(** A sum of floats never raises. *)
Lemma sum_from_floats (numbers : list number) (f : float) :
  Forall (fun x => is_float x = true) numbers ->
  exists g, sum_from (Float f) numbers = Ok (Float g).
Proof.
  revert f. induction numbers as [|x rest IH]; intros f Hf; [by exists f|].
  apply Forall_cons in Hf as [Hx Hf]. destruct x as [z|g]; [done|].
  cbn [sum_from add mbind exc_bind]. by apply IH.
Qed.

Lemma sum_floats (numbers : list number) :
  numbers <> [] -> Forall (fun x => is_float x = true) numbers ->
  exists g, sum numbers = Ok (Float g).
Proof.
  intros Hne Hf. destruct numbers as [|x rest]; [done|].
  apply Forall_cons in Hf as [Hx Hf]. destruct x as [z|g]; [done|].
  unfold sum. cbn [sum_from add].
  change (float_of_int 0) with (Ok fzero). cbn [mbind exc_bind].
  by apply sum_from_floats.
Qed.

(** The mean raises exactly when the quotient of an int sum is beyond the
    float range, or when the length cannot be made a float. *)
Lemma truediv_raise_iff (total : number) (n : Z) (e : exception) :
  0 < n ->
  truediv total n = Raise e <->
  e = OverflowError /\
  ((exists z, total = Int z /\ int_truediv z n = Raise OverflowError) \/
   (is_float total = true /\ float_of_int n = Raise OverflowError)).
Proof.
  intros Hn. destruct total as [z|f]; cbn [truediv is_float].
  - destruct (int_truediv z n) as [q|e'] eqn:E; cbn [mbind exc_bind].
    + split; [done|]. intros [_ [(z' & ? & ?)|[? _]]]; [simplify_eq; congruence|done].
    + assert (e' = OverflowError) as ->.
      { unfold int_truediv in E. destruct (n =? 0) eqn:E0; [lia|].
        case_match; congruence. }
      split; [intros; simplify_eq; eauto|]. by intros [-> _].
  - destruct (float_of_int n) as [g|e'] eqn:E; cbn [mbind exc_bind].
    + rewrite (float_of_int_pos n g Hn E).
      split; [done|]. intros [_ [(z' & ? & ?)|[_ ?]]]; [done|congruence].
    + pose proof (float_of_int_raise _ _ E) as ->.
      split; [intros; simplify_eq; eauto|]. by intros [-> _].
Qed.

(** C9 (as amended): the statistics of the empty list are the empty
    dictionary, without error.  For a non-empty list the only exception is
    an [OverflowError], raised exactly when an int beyond the float range
    is to be converted: in the running sum, when the sum so far and the
    next item are an int and a float of which the int cannot be converted;
    in the mean, when the sum is an int and its quotient by the length is
    beyond the float range; or when the length itself cannot be converted,
    which takes a list of [2 ^ 1023] items or more.  Otherwise the result
    has exactly the entries count, sum, mean, min and max: the length, the
    sum, the sum divided by the length (a float), and two items of the
    list such that no item is less than the one and none greater than the
    other.  In particular a non-empty list of floats of fewer than
    [2 ^ 1023] items always has its statistics. *)
Theorem calculate_statistics_entries (numbers : list number) :
  calculate_statistics [] = Ok ∅ /\
  (numbers <> [] ->
   let count := Z.of_nat (length numbers) in
   (forall e, calculate_statistics numbers = Raise e <->
      e = OverflowError /\
      ((exists pre x post acc,
          numbers = pre ++ x :: post /\ sum pre = Ok acc /\ overflows acc x) \/
       (exists z, sum numbers = Ok (Int z) /\
                  int_truediv z count = Raise OverflowError) \/
       (exists f, sum numbers = Ok (Float f) /\
                  float_of_int count = Raise OverflowError))) /\
   (forall total mean,
      sum numbers = Ok total -> truediv total count = Ok mean ->
      exists f lo hi,
        mean = Float f /\
        calculate_statistics numbers
        = Ok (statistics count total (Float f) lo hi) /\
        lo ∈ numbers /\ hi ∈ numbers /\
        (Forall valid_number numbers ->
         Forall (fun x => ~ less x lo /\ ~ less hi x) numbers)) /\
   (Forall (fun x => is_float x = true) numbers -> count < 2 ^ 1023 ->
    exists total mean lo hi,
      calculate_statistics numbers
      = Ok (statistics count (Float total) (Float mean) lo hi))).
Proof.
  split; [reflexivity|]. intros Hne count.
  destruct numbers as [|first rest] eqn:En; [done|]. rewrite <- En in *.
  assert (Hlen : 0 < count) by (subst count numbers; cbn [length]; lia).
  assert (Hc : calculate_statistics numbers =
    (total ← sum numbers; mean ← truediv total count;
     Ok (statistics count total mean (min_from first rest) (max_from first rest)))).
  { subst numbers. reflexivity. }
  split; [|split].
  - intros e. rewrite Hc. split.
    + destruct (sum numbers) as [total|e1] eqn:Es; cbn [mbind exc_bind].
      * destruct (truediv total count) as [mean|e2] eqn:Em; cbn [mbind exc_bind];
          [done|].
        intros H. simplify_eq.
        pose proof (proj1 (truediv_raise_iff _ _ _ Hlen) Em)
          as [-> [(z & -> & Hz)|[Hf Hz]]].
        -- split; [done|]. right. left. eauto.
        -- split; [done|]. right. right. destruct total as [|f]; [done|]. eauto.
      * intros H. simplify_eq.
        apply sum_from_raise_iff in Es as (pre & x & post & acc & ? & ? & Ha).
        apply add_raise_iff in Ha as [-> Ha]. split; [done|]. left.
        by exists pre, x, post, acc.
    + intros [-> [(pre & x & post & acc & Hn & Hs & Ho)|[(z & Hs & Hz)|(f & Hs & Hz)]]].
      * assert (sum numbers = Raise OverflowError) as ->; [|done].
        apply sum_from_raise_iff. exists pre, x, post, acc.
        split; [done|]. split; [done|]. by apply add_raise_iff.
      * rewrite Hs. cbn [mbind exc_bind truediv]. by rewrite Hz.
      * rewrite Hs. cbn [mbind exc_bind truediv]. by rewrite Hz.
  - intros total mean Hs Hm. destruct (truediv_float _ _ _ Hm) as [f ->].
    exists f, (min_from first rest), (max_from first rest).
    split; [done|]. split; [by rewrite Hc, Hs; cbn [mbind exc_bind]; rewrite Hm|].
    subst numbers.
    split; [apply min_from_elem|]. split; [apply max_from_elem|].
    intros Hv. pose proof (min_from_least first rest Hv) as Hlo.
    pose proof (max_from_greatest first rest Hv) as Hhi.
    rewrite Forall_forall in *. intros x Hx. split; [by apply Hlo|by apply Hhi].
  - intros Hf Hsmall. destruct (sum_floats numbers Hne Hf) as [g Hg].
    destruct (float_of_int_finite count) as [h Hh]; [lia|].
    rewrite Hc, Hg. cbn [mbind exc_bind truediv]. rewrite Hh.
    cbn [mbind exc_bind]. rewrite (float_of_int_pos count h Hlen Hh).
    cbn [mbind exc_bind]. eauto.
Qed.

Lemma calculate_statistics_entries_witness :
  calculate_statistics [Int (2 ^ 1023); Int (2 ^ 1023); Float Samples.half]
    = Raise OverflowError /\
  exists f lo hi,
    Float (round_Z (2 ^ 1023)) = Float f /\
    calculate_statistics [Int (2 ^ 1024); Int 0]
    = Ok (statistics 2 (Int (2 ^ 1024)) (Float f) lo hi) /\
    lo ∈ [Int (2 ^ 1024); Int 0] /\ hi ∈ [Int (2 ^ 1024); Int 0] /\
    (Forall valid_number [Int (2 ^ 1024); Int 0] ->
     Forall (fun x => ~ less x lo /\ ~ less hi x) [Int (2 ^ 1024); Int 0]).
Proof.
  split.
  - refine (proj2 (proj1 (proj2 (calculate_statistics_entries
              [Int (2 ^ 1023); Int (2 ^ 1023); Float Samples.half])
              ltac:(discriminate)) OverflowError) _).
    split; [reflexivity|]. left.
    exists [Int (2 ^ 1023); Int (2 ^ 1023)], (Float Samples.half), [],
      (Int (2 ^ 1024)).
    split; [reflexivity|]. split; vm_compute; reflexivity.
  - refine (proj1 (proj2 (proj2 (calculate_statistics_entries
              [Int (2 ^ 1024); Int 0]) ltac:(discriminate)))
              (Int (2 ^ 1024)) (Float (round_Z (2 ^ 1023))) _ _);
      vm_compute; reflexivity.
Defined.

(** C10: the price 29.99 with the symbol "$" is formatted as "$29.99". *)
Theorem format_price_29_99 :
  format_price (VFloat (float_of_decimal 2999 (-2))) (str "$") = Ok (str "$29.99").
Proof. vm_compute. reflexivity. Qed.

End HelperClaims.

(** * Further properties of the code *)

(** ** The dictionary helpers *)

Section Dictionaries.
Import Utils.

Lemma extract_fields_fold (data : gmap text value) (dv : value)
    (fields : list text) (acc : gmap text value) (k : text) :
  fold_left
    (fun acc field => <[field := default dv (data !! field)]> acc) fields acc
    !! k
  = if decide (k ∈ fields) then Some (default dv (data !! k)) else acc !! k.
Proof.
  revert acc. induction fields as [|f fields IH]; intros acc; cbn [fold_left].
  - by rewrite decide_False by apply not_elem_of_nil.
  - rewrite IH. destruct (decide (k ∈ fields)) as [Hin|Hin].
    + by rewrite decide_True by (by right).
    + rewrite lookup_insert. destruct (decide (f = k)) as [->|Hne].
      * by rewrite decide_True by left.
      * rewrite decide_False; [done|]. intros [?|?]%elem_of_cons; congruence.
Qed.

Lemma extract_fields_get (data : gmap text value) (fields : list text)
    (dv : value) (k : text) :
  extract_fields data fields dv !! k
  = if decide (k ∈ fields) then Some (default dv (data !! k)) else None.
Proof. unfold extract_fields. by rewrite extract_fields_fold, lookup_empty. Qed.

(** [extract_fields] returns a dictionary with exactly the requested
    fields; a field has the value it has in [data], or the default value
    when [data] lacks it, so that no requested field is ever missing from
    the result. *)
Theorem extract_fields_lookup (data : gmap text value) (fields : list text)
    (dv : value) (k : text) :
  extract_fields data fields dv !! k
  = (if decide (k ∈ fields) then Some (default dv (data !! k)) else None) /\
  Validation.first_missing fields (extract_fields data fields dv) = None.
Proof.
  split; [apply extract_fields_get|].
  apply first_missing_None. apply Forall_forall. intros f Hf.
  rewrite extract_fields_get, decide_True by done. eauto.
Qed.

Lemma merge_dicts_snoc (dicts : list (gmap text value)) (d : gmap text value) :
  merge_dicts (dicts ++ [d]) = d ∪ merge_dicts dicts.
Proof. unfold merge_dicts. by rewrite fold_left_app. Qed.

(** [merge_dicts]: a key is in the result when some dictionary has it, and
    its value is the one of the last dictionary that has it. *)
Theorem merge_dicts_lookup (dicts : list (gmap text value))
    (d : gmap text value) (k : text) :
  merge_dicts [] = ∅ /\
  merge_dicts (dicts ++ [d]) !! k
    = match d !! k with
      | Some v => Some v
      | None => merge_dicts dicts !! k
      end /\
  (is_Some (merge_dicts dicts !! k) <-> exists d', d' ∈ dicts /\ is_Some (d' !! k)).
Proof.
  split; [reflexivity|]. split.
  - rewrite merge_dicts_snoc. destruct (d !! k) as [v|] eqn:E.
    + by apply lookup_union_Some_l.
    + by apply lookup_union_r.
  - clear d. induction dicts as [|d dicts IH] using rev_ind.
    + cbn. rewrite lookup_empty. split; [by intros []|].
      intros (d' & Hd' & _). by apply elem_of_nil in Hd'.
    + rewrite merge_dicts_snoc, lookup_union_is_Some, IH. split.
      * intros [H|(d' & Hin & H)].
        -- exists d. split; [|done]. apply elem_of_app. right. by left.
        -- exists d'. split; [|done]. apply elem_of_app. by left.
      * intros (d' & Hin & H). apply elem_of_app in Hin as [Hin|Hin].
        -- right. eauto.
        -- apply list_elem_of_singleton in Hin as ->. by left.
Qed.

(** [filter_dict] keeps the entries of [data] whose key is listed and
    nothing else; on keys that are all present it agrees with
    [extract_fields], which gives the default to a missing key where
    [filter_dict] leaves it out. *)
Theorem filter_dict_lookup (data : gmap text value) (keys : list text)
    (dv : value) (k : text) :
  filter_dict data keys !! k = (if decide (k ∈ keys) then data !! k else None) /\
  filter_dict data keys ⊆ data /\
  filter_dict (filter_dict data keys) keys = filter_dict data keys /\
  (Forall (fun f => is_Some (data !! f)) keys ->
   extract_fields data keys dv = filter_dict data keys).
Proof.
  assert (Hl : forall k', filter_dict data keys !! k'
                 = if decide (k' ∈ keys) then data !! k' else None).
  { intros k'. unfold filter_dict. apply option_eq. intros v.
    rewrite map_lookup_filter_Some. cbn. destruct (decide (k' ∈ keys)); intuition congruence. }
  split; [apply Hl|]. split; [apply map_filter_subseteq|]. split.
  - apply map_eq. intros k'. unfold filter_dict at 1.
    apply option_eq. intros v. rewrite map_lookup_filter_Some, Hl. cbn.
    destruct (decide (k' ∈ keys)); intuition congruence.
  - intros Hall. apply map_eq. intros k'.
    rewrite extract_fields_get, Hl.
    destruct (decide (k' ∈ keys)) as [Hin|]; [|done].
    rewrite Forall_forall in Hall. destruct (Hall _ Hin) as [v ->]. done.
Qed.

Lemma merge_dicts_lookup_witness :
  is_Some (merge_dicts [Samples.listing; ∅] !! str "title").
Proof.
  apply (merge_dicts_lookup [Samples.listing; ∅] ∅ (str "title")).
  exists Samples.listing. split; [left|]. vm_compute. eauto.
Defined.

Lemma filter_dict_lookup_witness :
  extract_fields (Examples.product Examples.widget (VInt 3) Examples.widget_jpg)
    [str "name"; str "price"] VNone
  = filter_dict (Examples.product Examples.widget (VInt 3) Examples.widget_jpg)
      [str "name"; str "price"].
Proof.
  apply (filter_dict_lookup _ _ VNone []).
  repeat constructor; vm_compute; eauto.
Defined.

End Dictionaries.

(** ** The text helpers *)

Section Texts.
Import Utils Shape.

Lemma rstrip_snoc (l : text) (c : char) :
  rstrip (l ++ [c]) = if isspace c then rstrip l else l ++ [c].
Proof.
  unfold rstrip. rewrite rev_app_distr. cbn [rev app lstrip].
  destruct (isspace c); [done|]. cbn [rev]. by rewrite rev_involutive.
Qed.

Lemma rstrip_prefix (l : text) :
  exists ws, l = rstrip l ++ ws /\ Forall (fun c => isspace c = true) ws.
Proof.
  induction l as [|c l IH] using rev_ind; [by exists []|].
  rewrite rstrip_snoc. destruct (isspace c) eqn:E.
  - destruct IH as (ws & Hl & Hws). exists (ws ++ [c]). split.
    + by rewrite app_assoc, <- Hl.
    + apply Forall_app. split; [done|]. by constructor.
  - exists []. by rewrite app_nil_r.
Qed.

Lemma rstrip_last (l : text) (c : char) :
  last (rstrip l) = Some c -> isspace c = false.
Proof.
  induction l as [|x l IH] using rev_ind; [done|].
  rewrite rstrip_snoc. destruct (isspace x) eqn:E; [done|].
  rewrite last_snoc. by intros [= <-].
Qed.

Lemma rstrip_id (l : text) :
  (forall c, last l = Some c -> isspace c = false) -> rstrip l = l.
Proof.
  destruct l as [|x l _] using rev_ind; [done|]. intros H.
  rewrite rstrip_snoc, (H x); [done|]. by rewrite last_snoc.
Qed.

Lemma spaced_sub (b : bool) (t : text) : spaced_ok b (sub_spaces b t) = true.
Proof.
  revert b. induction t as [|c t IH]; intros b; [done|].
  cbn [sub_spaces]. destruct (isspace c) eqn:E.
  - destruct b; [done|]. cbn [spaced_ok]. change (isspace 32%N) with true.
    cbv iota. by rewrite IH.
  - cbn [spaced_ok]. by rewrite E.
Qed.

Lemma spaced_weaken (l : text) :
  spaced_ok true l = true -> spaced_ok false l = true.
Proof. destruct l as [|c l]; [done|]. cbn. by destruct (isspace c). Qed.

Lemma spaced_lstrip (l : text) :
  spaced_ok false l = true -> spaced_ok true (lstrip l) = true.
Proof.
  induction l as [|c l IH]; [done|]. cbn [spaced_ok lstrip].
  destruct (isspace c) eqn:E.
  - intros H. apply andb_true_iff in H as [_ H]. by apply IH, spaced_weaken.
  - intros H. cbn [spaced_ok]. by rewrite E.
Qed.

Lemma spaced_prefix (b : bool) (l1 l2 : text) :
  spaced_ok b (l1 ++ l2) = true -> spaced_ok b l1 = true.
Proof.
  revert b. induction l1 as [|c l1 IH]; intros b; [done|]. cbn.
  destruct (isspace c); [|apply IH].
  intros [H1 H2]%andb_true_iff. rewrite H1. by apply IH.
Qed.

Lemma spaced_rstrip (b : bool) (l : text) :
  spaced_ok b l = true -> spaced_ok b (rstrip l) = true.
Proof.
  destruct (rstrip_prefix l) as (ws & Hl & _). intros H.
  rewrite Hl in H. by apply spaced_prefix in H.
Qed.

Lemma sub_spaces_id (b : bool) (l : text) :
  spaced_ok b l = true -> sub_spaces b l = l.
Proof.
  revert b. induction l as [|c l IH]; intros b; [done|]. cbn.
  destruct (isspace c).
  - intros [[Hb Hc]%andb_true_iff H]%andb_true_iff.
    destruct b; [done|]. apply N.eqb_eq in Hc as ->. by rewrite IH.
  - intros H. by rewrite IH.
Qed.

Lemma filter_sub_spaces (b : bool) (t : text) :
  List.filter nonspace (sub_spaces b t) = List.filter nonspace t.
Proof.
  revert b. induction t as [|c t IH]; intros b; [done|].
  cbn [sub_spaces List.filter]. unfold nonspace at 2.
  destruct (isspace c) eqn:E; cbn [negb].
  - destruct b; [apply IH|]. cbn [List.filter]. apply IH.
  - cbn [List.filter]. unfold nonspace at 1. rewrite E. cbn. by rewrite IH.
Qed.

Lemma filter_lstrip (l : text) :
  List.filter nonspace (lstrip l) = List.filter nonspace l.
Proof.
  induction l as [|c l IH]; [done|]. cbn [lstrip].
  destruct (isspace c) eqn:E; [|done].
  cbn [List.filter]. unfold nonspace at 2. by rewrite E.
Qed.

Lemma filter_strip (l : text) :
  List.filter nonspace (strip l) = List.filter nonspace l.
Proof.
  unfold strip, rstrip.
  by rewrite List.filter_rev, filter_lstrip, <- List.filter_rev,
    rev_involutive, filter_lstrip.
Qed.

Lemma clean_text_is_tidy (t : text) : tidy (clean_text t).
Proof.
  split.
  - apply spaced_rstrip, spaced_lstrip, spaced_sub.
  - apply rstrip_last.
Qed.

Lemma clean_text_of_tidy (t : text) : tidy t -> clean_text t = t.
Proof.
  intros [H1 H2]. unfold clean_text, strip.
  rewrite (sub_spaces_id false) by by apply spaced_weaken.
  assert (lstrip t = t) as ->.
  { destruct t as [|c t]; [done|]. cbn in *. by destruct (isspace c). }
  by apply rstrip_id.
Qed.

(** [clean_text] returns a text without leading or trailing white space in
    which white space occurs only as single spaces; it leaves such a text
    as it is, so that cleaning twice is cleaning once; and it keeps the
    characters that are not white space, in their order. *)
Theorem clean_text_normal_form (t : text) :
  tidy (clean_text t) /\
  (tidy t -> clean_text t = t) /\
  clean_text (clean_text t) = clean_text t /\
  List.filter nonspace (clean_text t) = List.filter nonspace t.
Proof.
  refine (conj _ (conj _ (conj _ _))).
  - apply clean_text_is_tidy.
  - apply clean_text_of_tidy.
  - apply clean_text_of_tidy, clean_text_is_tidy.
  - unfold clean_text. by rewrite filter_strip, filter_sub_spaces.
Qed.

Lemma clean_text_normal_form_witness :
  clean_text (str "a b") = str "a b".
Proof.
  refine (proj1 (proj2 (clean_text_normal_form (str "a b"))) _).
  split; [reflexivity|]. intros c [= <-]. reflexivity.
Defined.

Lemma slice_prefix {A} (l : list A) (k : Z) :
  0 <= k <= Z.of_nat (length l) -> Helpers.slice l 0 k = take (Z.to_nat k) l.
Proof.
  intros H. unfold Helpers.slice.
  assert (Helpers.clamp (Z.of_nat (length l)) 0 = 0) as ->.
  { unfold Helpers.clamp. cbn [Z.ltb Z.compare]. lia. }
  assert (Helpers.clamp (Z.of_nat (length l)) k = k) as ->.
  { unfold Helpers.clamp. destruct (k <? 0) eqn:E; lia. }
  by rewrite Z.sub_0_r.
Qed.

(** [truncate_text] with a suffix that fits in [max_length]: the result is
    never longer than [max_length]; a text that fits is returned as it is,
    a longer one is cut so that, with the suffix, it has exactly
    [max_length] characters. *)
Theorem truncate_text_bound (t : text) (max_length : Z) (suffix : text) :
  Z.of_nat (length suffix) <= max_length ->
  Z.of_nat (length (truncate_text t max_length suffix)) <= max_length /\
  (Z.of_nat (length t) <= max_length -> truncate_text t max_length suffix = t) /\
  (max_length < Z.of_nat (length t) ->
   truncate_text t max_length suffix
   = take (Z.to_nat (max_length - Z.of_nat (length suffix))) t ++ suffix /\
   Z.of_nat (length (truncate_text t max_length suffix)) = max_length).
Proof.
  intros Hs. unfold truncate_text.
  destruct (Z.of_nat (length t) <=? max_length) eqn:E.
  - apply Z.leb_le in E. split; [done|]. split; [done|]. lia.
  - apply Z.leb_gt in E. rewrite slice_prefix by lia.
    rewrite length_app, length_take. split; [lia|]. split; [lia|].
    intros _. split; [done|lia].
Qed.

Lemma truncate_text_bound_witness :
  truncate_text (str "abcdefgh") 5 (str "...") = str "ab...".
Proof.
  refine (proj1 (proj2 (proj2 (truncate_text_bound (str "abcdefgh") 5 (str "...") _)) _)).
  - vm_compute. discriminate.
  - vm_compute. reflexivity.
Defined.

(** [truncate_text] with a suffix longer than [max_length]: a text that is
    longer than [max_length] comes back at least as long as the suffix,
    hence longer than [max_length]. *)
Theorem truncate_text_overlong (t : text) (max_length : Z) (suffix : text) :
  max_length < Z.of_nat (length suffix) ->
  max_length < Z.of_nat (length t) ->
  Z.of_nat (length suffix)
    <= Z.of_nat (length (truncate_text t max_length suffix)) /\
  max_length < Z.of_nat (length (truncate_text t max_length suffix)).
Proof.
  intros Hs Ht. unfold truncate_text.
  destruct (Z.of_nat (length t) <=? max_length) eqn:E;
    [apply Z.leb_le in E; lia|].
  rewrite length_app. lia.
Qed.

Lemma truncate_text_overlong_witness :
  3 <= Z.of_nat (length (truncate_text (str "abcdefgh") 2 (str "..."))) /\
  2 < Z.of_nat (length (truncate_text (str "abcdefgh") 2 (str "..."))).
Proof.
  apply (truncate_text_overlong (str "abcdefgh") 2 (str "...")); vm_compute; reflexivity.
Defined.

End Texts.

(** ** Batches *)

Section Batching.
Import Helpers Batches.
Context {A : Type}.
Implicit Types (items : list A).

Lemma batch_count_spec (n size : Z) (k : nat) :
  0 <= n -> 0 < size ->
  (k < batch_count n size)%nat <-> Z.of_nat k * size < n.
Proof.
  intros Hn Hs. unfold batch_count.
  set (q := (n + size - 1) / size).
  assert (Hq1 : size * q <= n + size - 1) by (apply Z.mul_div_le; lia).
  assert (Hq2 : n + size - 1 < size * (q + 1)).
  { rewrite Z.mul_add_distr_l, Z.mul_1_r.
    pose proof (Z.mod_pos_bound (n + size - 1) size Hs).
    pose proof (Z.div_mod (n + size - 1) size). fold q in H0. lia. }
  assert (0 <= q) by (apply Z.div_pos; lia).
  split; intros H'; [|apply Nat2Z.inj_lt; rewrite Z2Nat.id by done]; nia.
Qed.

Lemma slice_block items (size : Z) (k : nat) :
  0 < size -> Z.of_nat k * size < Z.of_nat (length items) ->
  slice items (0 + Z.of_nat k * size) (0 + Z.of_nat k * size + size)
  = take (Z.to_nat size) (drop (k * Z.to_nat size) items).
Proof.
  intros Hs Hk. unfold slice, clamp. rewrite !Z.add_0_l.
  set (i := Z.of_nat k * size) in *.
  set (n := Z.of_nat (length items)) in *.
  assert (0 <= i) by (subst i; nia).
  destruct (i <? 0) eqn:E1; [lia|]. destruct (i + size <? 0) eqn:E2; [lia|].
  replace (Z.max 0 (Z.min n i)) with i by lia.
  replace (Z.to_nat i) with (k * Z.to_nat size)%nat by (subst i; nia).
  assert (Hlen : length (drop (k * Z.to_nat size) items)
                 = Z.to_nat (n - i)).
  { rewrite length_drop. subst n i. nia. }
  destruct (Z.le_gt_cases (i + size) n) as [Hle|Hgt].
  - f_equal. lia.
  - rewrite (take_ge _ (Z.to_nat size)) by lia. apply take_ge. lia.
Qed.

Lemma batch_items_blocks items (size : Z) :
  0 < size ->
  batch_items items size
  = Ok (blocks (Z.to_nat size)
          (batch_count (Z.of_nat (length items)) size) items).
Proof.
  intros Hs. unfold batch_items, range.
  destruct (size =? 0) eqn:E0; [lia|]. destruct (0 <? size) eqn:E1; [|lia].
  cbn [mbind exc_bind]. f_equal. rewrite map_map. unfold blocks, batch_count.
  replace (Z.of_nat (length items) - 0 + size - 1)
    with (Z.of_nat (length items) + size - 1) by lia.
  apply map_ext_in. intros k Hk%in_seq.
  apply slice_block; [done|].
  apply batch_count_spec; [lia|done|]. unfold batch_count. lia.
Qed.

Lemma concat_blocks items (size count : nat) :
  concat (blocks size count items) = take (count * size) items.
Proof.
  unfold blocks. induction count as [|c IH]; [by rewrite take_0|].
  rewrite seq_S, map_app, concat_app, IH. cbn [map concat plus].
  rewrite app_nil_r, take_take_drop. f_equal. lia.
Qed.

(** [batch_items] with a positive batch size: the batches, in order, make
    up the list; there are as many as the length divided by the size,
    rounded up; every batch has at least one and at most [batch_size]
    items, and every batch but the last has exactly [batch_size]. *)
Theorem batch_items_partition items (batch_size : Z) :
  0 < batch_size ->
  exists groups,
    batch_items items batch_size = Ok groups /\
    concat groups = items /\
    length groups = batch_count (Z.of_nat (length items)) batch_size /\
    Forall (fun g => 1 <= Z.of_nat (length g) <= batch_size) groups /\
    (forall i g, groups !! i = Some g -> (S i < length groups)%nat ->
       Z.of_nat (length g) = batch_size).
Proof.
  intros Hs. eexists. split; [by apply batch_items_blocks|].
  set (n := Z.of_nat (length items)).
  set (c := batch_count n batch_size).
  assert (Hc : forall k, (k < c)%nat <-> Z.of_nat k * batch_size < n).
  { intros k. apply batch_count_spec; [lia|done]. }
  split; [|split; [|split]].
  - rewrite concat_blocks. apply take_ge.
    destruct c as [|c'] eqn:Ec.
    + pose proof (proj2 (Hc 0%nat)). lia.
    + pose proof (Hc (S c')). subst n. nia.
  - unfold blocks. by rewrite length_map, length_seq.
  - unfold blocks. apply Forall_forall. intros g Hg.
    apply list_elem_of_In, in_map_iff in Hg as (k & <- & Hk%in_seq).
    rewrite length_take, length_drop.
    assert (Z.of_nat k * batch_size < n) by (apply Hc; lia). subst n. nia.
  - intros i g Hg Hi. unfold blocks in *. rewrite length_map, length_seq in Hi.
    rewrite list_lookup_fmap in Hg.
    destruct (seq 0 c !! i) as [k|] eqn:Ek; [|done]. cbn in Hg.
    apply lookup_seq in Ek as [-> _]. injection Hg as <-.
    rewrite length_take, length_drop.
    assert (Z.of_nat (S i) * batch_size < n) by (apply Hc; lia). subst n. nia.
Qed.

(** [batch_items] with a batch size that is not positive: zero is a
    [ValueError]; a negative size gives no batch at all, whatever the
    list. *)
Theorem batch_items_degenerate items (batch_size : Z) :
  batch_items items 0 = Raise ValueError /\
  (batch_size < 0 -> batch_items items batch_size = Ok []).
Proof.
  split; [reflexivity|]. intros Hs. unfold batch_items, range.
  destruct (batch_size =? 0) eqn:E0; [lia|].
  destruct (0 <? batch_size) eqn:E1; [lia|].
  set (n := Z.of_nat (length items)).
  assert ((0 - n - batch_size - 1) / - batch_size <= 0) as Hq.
  { destruct (Z.le_gt_cases 0 (0 - n - batch_size - 1)).
    - rewrite Z.div_small; lia.
    - apply Z.lt_le_incl, Z.div_lt_upper_bound; lia. }
  replace (Z.to_nat ((0 - n - batch_size - 1) / - batch_size)) with 0%nat by lia.
  reflexivity.
Qed.

End Batching.

Lemma batch_items_partition_witness :
  exists groups : list (list nat),
    Helpers.batch_items [1; 2; 3; 4; 5; 6; 7]%nat 3 = Ok groups /\
    concat groups = [1; 2; 3; 4; 5; 6; 7]%nat /\
    length groups = Batches.batch_count 7 3 /\
    Forall (fun g => 1 <= Z.of_nat (length g) <= 3) groups /\
    (forall i g, groups !! i = Some g -> (S i < length groups)%nat ->
       Z.of_nat (length g) = 3).
Proof. apply (batch_items_partition [1; 2; 3; 4; 5; 6; 7]%nat 3). lia. Defined.

Lemma batch_items_degenerate_witness :
  Helpers.batch_items [1; 2; 3]%nat (-2) = Ok [].
Proof. apply (batch_items_degenerate [1; 2; 3]%nat (-2)). lia. Defined.

(** ** Statistics of ints and the progress line *)

Section IntStatistics.
Import Helpers Spec.

Lemma sum_from_ints (zs : list Z) (acc : Z) :
  sum_from (Int acc) (map Int zs) = Ok (Int (fold_left Z.add zs acc)).
Proof.
  revert acc. induction zs as [|z zs IH]; intros acc; [done|].
  cbn [map sum_from add mbind exc_bind fold_left]. apply IH.
Qed.

Lemma min_from_ints (zs : list Z) (z : Z) :
  min_from (Int z) (map Int zs) = Int (fold_left Z.min zs z).
Proof.
  unfold min_from. revert z. induction zs as [|x zs IH]; intros z; [done|].
  cbn [map fold_left lt]. destruct (x <? z) eqn:E.
  - rewrite IH. do 2 f_equal. lia.
  - rewrite IH. do 2 f_equal. lia.
Qed.

Lemma max_from_ints (zs : list Z) (z : Z) :
  max_from (Int z) (map Int zs) = Int (fold_left Z.max zs z).
Proof.
  unfold max_from. revert z. induction zs as [|x zs IH]; intros z; [done|].
  cbn [map fold_left lt]. destruct (z <? x) eqn:E.
  - rewrite IH. do 2 f_equal. lia.
  - rewrite IH. do 2 f_equal. lia.
Qed.

Lemma fold_min_bound (zs : list Z) (z : Z) :
  fold_left Z.min zs z <= z /\ Forall (fun x => fold_left Z.min zs z <= x) zs
  /\ fold_left Z.min zs z ∈ z :: zs.
Proof.
  revert z. induction zs as [|x zs IH]; intros z; cbn [fold_left].
  - split; [lia|]. split; [constructor|left].
  - destruct (IH (Z.min z x)) as (H1 & H2 & H3). split; [lia|]. split.
    + constructor; [lia|done].
    + apply elem_of_cons in H3 as [H3|H3]; [|by do 2 right].
      rewrite H3. destruct (Z.min_spec z x) as [[_ ->]|[_ ->]]; [left|right; left].
Qed.

Lemma fold_max_bound (zs : list Z) (z : Z) :
  z <= fold_left Z.max zs z /\ Forall (fun x => x <= fold_left Z.max zs z) zs
  /\ fold_left Z.max zs z ∈ z :: zs.
Proof.
  revert z. induction zs as [|x zs IH]; intros z; cbn [fold_left].
  - split; [lia|]. split; [constructor|left].
  - destruct (IH (Z.max z x)) as (H1 & H2 & H3). split; [lia|]. split.
    + constructor; [lia|done].
    + apply elem_of_cons in H3 as [H3|H3]; [|by do 2 right].
      rewrite H3. destruct (Z.max_spec z x) as [[_ ->]|[_ ->]]; [right; left|left].
Qed.

(** [calculate_statistics] on a non-empty list of ints: the sum is the exact
    integer sum, min and max are the least and the greatest item, the count
    is the length; only the mean, a float, can fail, when the quotient is
    beyond the float range. *)
Theorem calculate_statistics_ints (z : Z) (zs : list Z) :
  let total := fold_left Z.add (z :: zs) 0 in
  let count := Z.of_nat (length (z :: zs)) in
  let lo := fold_left Z.min zs z in
  let hi := fold_left Z.max zs z in
  calculate_statistics (map Int (z :: zs))
  = (mean ← int_truediv total count;
     Ok (statistics count (Int total) (Float mean) (Int lo) (Int hi))) /\
  lo ∈ z :: zs /\ hi ∈ z :: zs /\
  Forall (fun x => lo <= x <= hi) (z :: zs).
Proof.
  intros total count lo hi.
  destruct (fold_min_bound zs z) as (L1 & L2 & L3).
  destruct (fold_max_bound zs z) as (U1 & U2 & U3).
  split; [|split; [done|split; [done|]]].
  - unfold calculate_statistics, sum. cbn [map].
    change (Int z :: map Int zs) with (map Int (z :: zs)).
    rewrite sum_from_ints. cbn [mbind exc_bind truediv].
    rewrite length_map, min_from_ints, max_from_ints.
    fold total count lo hi.
    destruct (int_truediv total count); reflexivity.
  - constructor; [lia|]. rewrite Forall_forall in *.
    intros x Hx. specialize (L2 x Hx). specialize (U2 x Hx). cbn beta in *.
    fold lo in L2. fold hi in U2. lia.
Qed.

End IntStatistics.

Section Progress.
Import Utils.

Lemma int_truediv_raise (a b : Z) (e : exception) :
  b <> 0 -> int_truediv a b = Raise e -> e = OverflowError.
Proof.
  intros Hb. unfold int_truediv. destruct (b =? 0) eqn:E; [lia|].
  case_match; congruence.
Qed.

Lemma int_text_raise (z : Z) (e : exception) :
  int_text z = Raise e -> e = ValueError /\ too_long z = true.
Proof. unfold int_text. destruct (too_long z); intros H; by simplify_eq. Qed.

(** [progress_tracker] never divides by a total that is not positive: the
    percentage is then shown as 0.0, provided the two counters can be
    shown, and a counter of more than 4300 digits is a [ValueError].  No
    [ZeroDivisionError] is ever raised: the only exceptions are the
    [OverflowError] of a quotient beyond the float range, which needs a
    positive total, and the [ValueError] of a counter of more than 4300
    digits. *)
Theorem progress_tracker_total (current total : Z) (prefix : text) :
  (total <= 0 -> too_long current = false -> too_long total = false ->
   progress_tracker current total prefix
   = Ok (prefix ++ str "[" ++ int_digits current ++ str "/"
           ++ int_digits total ++ str "] 0.0%")) /\
  (total <= 0 -> too_long current = true \/ too_long total = true ->
   progress_tracker current total prefix = Raise ValueError) /\
  (forall e, progress_tracker current total prefix = Raise e ->
     (e = OverflowError /\ 0 < total /\
      int_truediv current total = Raise OverflowError) \/
     (e = ValueError /\ (too_long current = true \/ too_long total = true))).
Proof.
  unfold progress_tracker. split; [|split].
  - intros Ht Hc Htot. destruct (0 <? total) eqn:E; [lia|].
    unfold int_text. rewrite Hc, Htot. reflexivity.
  - intros Ht Hlong. destruct (0 <? total) eqn:E; [lia|].
    unfold int_text. change (float_of_int 0) with (Ok fzero).
    cbn [mbind exc_bind].
    destruct (too_long current); [done|]. cbn [mbind exc_bind].
    destruct Hlong as [? | ->]; done.
  - intros e. destruct (0 <? total) eqn:E.
    + destruct (int_truediv current total) as [q|e'] eqn:Eq;
        cbn [mbind exc_bind].
      * destruct (int_text current) as [c|e1] eqn:E1; cbn [mbind exc_bind].
        -- destruct (int_text total) as [t|e2] eqn:E2; cbn [mbind exc_bind];
             [done|].
           intros H. simplify_eq. apply int_text_raise in E2 as [-> ?]. auto.
        -- intros H. simplify_eq. apply int_text_raise in E1 as [-> ?]. auto.
      * intros H. simplify_eq. left.
        assert (e = OverflowError) as ->
          by (eapply int_truediv_raise; [|exact Eq]; lia).
        split; [done|]. split; [lia|done].
    + change (float_of_int 0) with (Ok fzero). cbn [mbind exc_bind].
      destruct (int_text current) as [c|e1] eqn:E1; cbn [mbind exc_bind].
      * destruct (int_text total) as [t|e2] eqn:E2; cbn [mbind exc_bind];
          [done|].
        intros H. simplify_eq. apply int_text_raise in E2 as [-> ?]. auto.
      * intros H. simplify_eq. apply int_text_raise in E1 as [-> ?]. auto.
Qed.

Lemma progress_tracker_total_witness :
  progress_tracker 5 0 [] = Ok (str "[5/0] 0.0%").
Proof.
  apply (progress_tracker_total 5 0 []); [lia|vm_compute; reflexivity..].
Defined.

End Progress.

(** ** More on the validation functions *)

Section MoreValidation.
Import Validation Spec.
Variable float_of_str : text -> option float.
Variable container_error : value -> option exception.

Lemma first_missing_has_fields (fields : list text) (d : gmap text value) :
  first_missing fields d = None -> has_fields fields d.
Proof.
  unfold has_fields. induction fields as [|f fields IH]; cbn; [constructor|].
  destruct (d !! f) eqn:E; [|done]. intros H. constructor; [by rewrite E|auto].
Qed.

Lemma getitem_field (fields : list text) (d : gmap text value) (k : text) :
  has_fields fields d -> k ∈ fields -> exists v, d !! k = Some v /\ getitem d k = Ok v.
Proof.
  unfold has_fields. rewrite Forall_forall. intros H Hk.
  destruct (H k Hk) as [v Hv]. exists v. unfold getitem. by rewrite Hv.
Qed.

Lemma product_field (k : string) :
  k = "name"%string \/ k = "price"%string \/ k = "image_path"%string ->
  str k ∈ product_fields.
Proof.
  intros H. unfold product_fields. cbn [map].
  destruct H as [H|[H|H]]; subst k.
  - right; left.
  - do 2 right; left.
  - do 4 right; left.
Qed.

(** The text of a value cannot be made: the value is an int of more than
    4300 digits, or a list or a dictionary whose text raises. *)
Lemma str_strip_truthy_raise (v : value) (e : exception) :
  str_strip_truthy container_error v = Raise e ->
  (exists z, v = VInt z /\ too_long z = true /\ e = ValueError) \/
  container_error v = Some e.
Proof.
  destruct v as [| |z| | |l|m]; cbn [str_strip_truthy]; try discriminate.
  - destruct (too_long z) eqn:E; intros H; simplify_eq. left. eauto.
  - destruct (container_error (VList l)); intros H; simplify_eq. by right.
  - destruct (container_error (VDict m)); intros H; simplify_eq. by right.
Qed.

Lemma falsy_or_blank_raise (v : value) (e : exception) :
  falsy_or_blank container_error v = Raise e ->
  truthy v = true /\ str_strip_truthy container_error v = Raise e.
Proof.
  unfold falsy_or_blank. destruct (truthy v); [|done].
  destruct (str_strip_truthy container_error v); cbn; intros H; by simplify_eq.
Qed.

(** A missing required field is reported, by both validators, with the name
    of a field that is missing; nothing else of the dictionary is looked
    at. *)
Theorem validators_missing_field (d : gmap text value) :
  (~ has_fields product_fields d ->
   exists field, field ∈ product_fields /\ d !! field = None /\
     validate_product_data float_of_str container_error d
     = Ok (false, Some (str "Missing required field: " ++ field))) /\
  (~ has_fields listing_fields d ->
   exists field, field ∈ listing_fields /\ d !! field = None /\
     validate_listing_data d
     = Ok (false, Some (str "Missing required field: " ++ field))).
Proof.
  split; intros H.
  - destruct (first_missing product_fields d) as [f|] eqn:E.
    + destruct (first_missing_Some _ _ _ E). exists f.
      unfold validate_product_data. by rewrite E.
    + by apply first_missing_has_fields in E.
  - destruct (first_missing listing_fields d) as [f|] eqn:E.
    + destruct (first_missing_Some _ _ _ E). exists f.
      unfold validate_listing_data. by rewrite E.
    + by apply first_missing_has_fields in E.
Qed.

(** A product dictionary with all required fields, a name and an image path
    that are truthy and whose texts can be made and are not blank, and a
    price that is a float not below zero or a non-negative int within the
    float range, is valid. *)
Theorem validate_product_data_valid (d : gmap text value)
    (name price path : value) :
  has_fields product_fields d ->
  d !! str "name" = Some name ->
  truthy name = true -> str_strip_truthy container_error name = Ok true ->
  d !! str "price" = Some price ->
  nonnegative_price price ->
  d !! str "image_path" = Some path ->
  truthy path = true -> str_strip_truthy container_error path = Ok true ->
  validate_product_data float_of_str container_error d = Ok (true, None).
Proof.
  intros Hf Hn Ht Hs Hp Hpos Hi Hit His. unfold validate_product_data.
  rewrite (first_missing_None _ _ Hf). unfold getitem.
  rewrite Hn. cbn [mbind exc_bind].
  rewrite (falsy_or_blank_false container_error name Ht Hs).
  cbn [mbind exc_bind]. rewrite Hp. cbn [mbind exc_bind].
  assert (exists f, float_of float_of_str price = Ok f /\ fltb f fzero = false)
    as (f & -> & ->).
  { destruct price as [| |z|f| | |]; cbn in Hpos; try done; cbn [float_of].
    - destruct Hpos as [Hz Hr].
      destruct (float_of_int z) as [f|e] eqn:E; [|done].
      exists f. split; [done|]. by apply (float_of_int_nonneg z).
    - eauto. }
  rewrite Hi. cbn [mbind exc_bind].
  by rewrite (falsy_or_blank_false container_error path Hit His).
Qed.

(** The exceptions that escape from [validate_product_data]: the
    [OverflowError] of a price that is an int beyond the float range, and
    the exception raised when the text of a truthy name or image path
    cannot be made: the [ValueError] of an int of more than 4300 digits, or
    what the text of a list or a dictionary raises. *)
Theorem validate_product_data_exception (d : gmap text value) (e : exception) :
  validate_product_data float_of_str container_error d = Raise e ->
  (e = OverflowError /\
   exists z, d !! str "price" = Some (VInt z) /\
             float_of_int z = Raise OverflowError) \/
  (exists v, (d !! str "name" = Some v \/ d !! str "image_path" = Some v) /\
             truthy v = true /\
             ((exists z, v = VInt z /\ too_long z = true /\ e = ValueError) \/
              container_error v = Some e)).
Proof.
  unfold validate_product_data.
  destruct (first_missing product_fields d) eqn:E; [done|].
  apply first_missing_has_fields in E.
  destruct (getitem_field _ _ _ E (product_field "name" ltac:(auto)))
    as (name & Hn & ->).
  destruct (getitem_field _ _ _ E (product_field "price" ltac:(auto)))
    as (price & Hp & ->).
  destruct (getitem_field _ _ _ E (product_field "image_path" ltac:(auto)))
    as (path & Hi & ->).
  cbn [mbind exc_bind].
  destruct (falsy_or_blank container_error name) as [[]|e1] eqn:E1;
    cbn [mbind exc_bind]; [done| |].
  2: { intros H. simplify_eq. apply falsy_or_blank_raise in E1 as [? E1].
       apply str_strip_truthy_raise in E1. right. eauto 6. }
  destruct (float_of float_of_str price) as [f|e'] eqn:Ef.
  - destruct (fltb f fzero); [done|].
    destruct (falsy_or_blank container_error path) as [[]|e2] eqn:E2;
      cbn [mbind exc_bind]; [done|done|].
    intros H. simplify_eq. apply falsy_or_blank_raise in E2 as [? E2].
    apply str_strip_truthy_raise in E2. right. eauto 6.
  - destruct price as [|b|z| |s| |]; cbn [float_of] in Ef;
      try (simplify_eq; done).
    + destruct b; vm_compute in Ef; discriminate.
    + assert (e' = OverflowError) as -> by eauto using float_of_int_raise.
      intros H. simplify_eq. left. eauto.
    + destruct (float_of_str s); simplify_eq; done.
Qed.

(** Both validators return [True] with no message or [False] with a
    message, never another combination. *)
Theorem validators_verdict (d : gmap text value) (b : bool) (m : option text) :
  (validate_product_data float_of_str container_error d = Ok (b, m) ->
   (b = true <-> m = None)) /\
  (validate_listing_data d = Ok (b, m) -> (b = true <-> m = None)).
Proof.
  split.
  - unfold validate_product_data, missing, invalid, valid.
    repeat (case_match; cbn [mbind exc_bind]); intros; simplify_eq;
      try (split; congruence).
    all: repeat match goal with
         | H : context [getitem ?d ?k] |- _ =>
           destruct (getitem d k); cbn [mbind exc_bind] in H
         | H : context [falsy_or_blank ?p ?v] |- _ =>
           destruct (falsy_or_blank p v); cbn [mbind exc_bind] in H
         | H : context [if ?c then _ else _] |- _ => destruct c
         | H : context [match float_of ?p ?v with _ => _ end] |- _ =>
           destruct (float_of p v) as [?|[]]
         end; simplify_eq; split; congruence.
  - unfold validate_listing_data, missing, invalid, valid.
    repeat (case_match; cbn [mbind exc_bind]); intros; simplify_eq;
      try (split; congruence).
    all: repeat match goal with
         | H : context [getitem ?d ?k] |- _ =>
           destruct (getitem d k); cbn [mbind exc_bind] in H
         | H : context [falsy_or_len ?v ?p] |- _ =>
           destruct (falsy_or_len v p); cbn [mbind exc_bind] in H
         | H : context [not_list_or_len ?v ?p] |- _ =>
           destruct (not_list_or_len v p); cbn [mbind exc_bind] in H
         | H : context [if ?c then _ else _] |- _ => destruct c
         end; simplify_eq; split; congruence.
Qed.

End MoreValidation.

Section MoreValidationExamples.
Import Validation Spec Examples.

Lemma validators_missing_field_witness :
  (exists field, field ∈ product_fields /\ (∅ : gmap text value) !! field = None /\
     validate_product_data no_str_price no_container ∅
     = Ok (false, Some (str "Missing required field: " ++ field))) /\
  (exists field, field ∈ listing_fields /\ (∅ : gmap text value) !! field = None /\
     validate_listing_data ∅
     = Ok (false, Some (str "Missing required field: " ++ field))).
Proof.
  split.
  - refine (proj1 (validators_missing_field no_str_price no_container ∅) _).
    intros H. apply Forall_inv in H. destruct H as [v H]. discriminate H.
  - refine (proj2 (validators_missing_field no_str_price no_container ∅) _).
    intros H. apply Forall_inv in H. destruct H as [v H]. discriminate H.
Defined.

Lemma validate_product_data_valid_witness :
  validate_product_data no_str_price no_container
    (product widget (VFloat Samples.price_49_99) widget_jpg)
  = Ok (true, None).
Proof.
  apply (validate_product_data_valid no_str_price no_container _ widget
           (VFloat Samples.price_49_99) widget_jpg).
  - repeat constructor; vm_compute; eauto.
  - vm_compute; reflexivity.
  - reflexivity.
  - vm_compute; reflexivity.
  - vm_compute; reflexivity.
  - vm_compute; reflexivity.
  - vm_compute; reflexivity.
  - reflexivity.
  - vm_compute; reflexivity.
Defined.

Lemma validate_product_data_exception_witness :
  (ValueError = OverflowError /\
   exists z, product (VInt (10 ^ 4300)) (VFloat Samples.price_49_99) widget_jpg
               !! str "price" = Some (VInt z) /\
             float_of_int z = Raise OverflowError) \/
  (exists v, (product (VInt (10 ^ 4300)) (VFloat Samples.price_49_99) widget_jpg
                !! str "name" = Some v \/
              product (VInt (10 ^ 4300)) (VFloat Samples.price_49_99) widget_jpg
                !! str "image_path" = Some v) /\
             truthy v = true /\
             ((exists z, v = VInt z /\ too_long z = true /\ ValueError = ValueError) \/
              no_container v = Some ValueError)).
Proof.
  apply (validate_product_data_exception no_str_price no_container).
  vm_compute. reflexivity.
Defined.

Lemma validators_verdict_witness :
  false = true <-> Some (str "Product name cannot be empty") = None.
Proof.
  refine (proj1 (validators_verdict no_str_price no_container
                   (product (VStr (str " ")) (VInt (-1)) widget_jpg)
                   false (Some (str "Product name cannot be empty"))) _).
  vm_compute. reflexivity.
Defined.

End MoreValidationExamples.

Section Listing.
Import Validation Spec.

Lemma listing_has_fields (d : gmap text value) (t ds f k : value) :
  d !! str "title" = Some t -> d !! str "description" = Some ds ->
  d !! str "features" = Some f -> d !! str "keywords" = Some k ->
  has_fields listing_fields d.
Proof.
  intros H1 H2 H3 H4. unfold has_fields, listing_fields. cbn [map].
  repeat constructor; eauto.
Qed.

(** A listing whose title, description and keywords are strings and whose
    features are a list is never the cause of an exception, and it is valid
    exactly when the title has 1 to 100 characters, the description at
    least 50, and neither the features nor the keywords are empty. *)
Theorem validate_listing_data_typed (d : gmap text value)
    (title description keywords : text) (features : list value) :
  d !! str "title" = Some (VStr title) ->
  d !! str "description" = Some (VStr description) ->
  d !! str "features" = Some (VList features) ->
  d !! str "keywords" = Some (VStr keywords) ->
  exists verdict,
    validate_listing_data d = Ok verdict /\
    (verdict = (true, None) <->
     (1 <= length title <= 100)%nat /\ (50 <= length description)%nat /\
     features <> [] /\ keywords <> []).
Proof.
  intros H1 H2 H3 H4. unfold validate_listing_data.
  rewrite (first_missing_None _ _ (listing_has_fields _ _ _ _ _ H1 H2 H3 H4)).
  unfold getitem, falsy_or_len, not_list_or_len. rewrite H1, H2, H3, H4.
  cbn [mbind exc_bind truthy len is_list is_str].
  destruct title as [|c title]; cbn [length Nat.eqb negb mbind exc_bind].
  { eexists; split; [reflexivity|]. split; [done|]. intros [? _]; lia. }
  destruct (Z.ltb_spec 100 (Z.of_nat (S (length title)))) as [E1|E1].
  { eexists; split; [reflexivity|]. split; [done|]. intros [? _]; lia. }
  destruct description as [|c' description];
    cbn [length Nat.eqb negb mbind exc_bind].
  { eexists; split; [reflexivity|]. split; [done|]. intros (_ & ? & _); lia. }
  destruct (Z.ltb_spec (Z.of_nat (S (length description))) 50) as [E2|E2].
  { eexists; split; [reflexivity|]. split; [done|]. intros (_ & ? & _); lia. }
  destruct features as [|x features]; cbn [length].
  { eexists; split; [reflexivity|]. split; [done|]. by intros (_ & _ & ? & _). }
  replace (Z.of_nat (S (length features)) =? 0) with false
    by (symmetry; apply Z.eqb_neq; lia).
  destruct keywords as [|c'' keywords]; cbn [length Nat.eqb negb orb].
  { eexists; split; [reflexivity|]. split; [done|]. by intros (_ & _ & _ & ?). }
  eexists; split; [reflexivity|]. split; [|done]. intros _.
  repeat split; try done; lia.
Qed.

Lemma falsy_or_len_raise (v : value) (bad : Z -> bool) (e : exception) :
  falsy_or_len v bad = Raise e ->
  e = TypeError /\ truthy v = true /\ len v = Raise TypeError.
Proof.
  unfold falsy_or_len. destruct (truthy v); [|done].
  destruct v; cbn; intros; by simplify_eq.
Qed.

(** The only exception that escapes from [validate_listing_data] is the
    [TypeError] of [len] on a title or a description that is truthy and has
    no length (a number or [True]). *)
Theorem validate_listing_data_exception (d : gmap text value) (e : exception) :
  validate_listing_data d = Raise e ->
  e = TypeError /\
  exists v, (d !! str "title" = Some v \/ d !! str "description" = Some v) /\
            truthy v = true /\ len v = Raise TypeError.
Proof.
  unfold validate_listing_data.
  destruct (first_missing listing_fields d) eqn:E; [done|].
  assert (Hf : forall k, str k ∈ listing_fields ->
                 exists v, d !! str k = Some v /\ getitem d (str k) = Ok v).
  { intros k Hk. clear -E Hk. revert Hk. generalize (str k). intros key Hk.
    induction listing_fields as [|f fs IH]; [by apply elem_of_nil in Hk|].
    cbn in E. destruct (d !! f) eqn:Ef; [|done].
    apply elem_of_cons in Hk as [->|Hk]; [|auto].
    exists v. unfold getitem. by rewrite Ef. }
  destruct (Hf "title"%string) as (t & Ht & ->); [left|].
  destruct (Hf "description"%string) as (ds & Hd & ->); [right; left|].
  destruct (Hf "features"%string) as (fe & _ & ->); [do 2 right; left|].
  destruct (Hf "keywords"%string) as (kw & _ & ->); [do 3 right; left|].
  cbn [mbind exc_bind].
  destruct (falsy_or_len t _) as [[]|e1] eqn:E1; cbn [mbind exc_bind]; [done| |].
  2: { intros H. simplify_eq. apply falsy_or_len_raise in E1 as (-> & ? & ?).
       eauto 6. }
  destruct (falsy_or_len ds _) as [[]|e2] eqn:E2; cbn [mbind exc_bind]; [done| |].
  2: { intros H. simplify_eq. apply falsy_or_len_raise in E2 as (-> & ? & ?).
       eauto 6. }
  unfold not_list_or_len.
  destruct fe; cbn [is_list len mbind exc_bind]; try done.
  destruct (_ =? 0); [done|].
  by destruct (negb (truthy kw) || negb (is_str kw)).
Qed.

Lemma validate_listing_data_typed_witness :
  validate_listing_data Samples.listing = Ok (true, None).
Proof.
  destruct (validate_listing_data_typed Samples.listing
              (str "Wireless Headphones") Examples.fifty_chars (str "product")
              [VStr (str "Feature 1")])
    as (verdict & -> & Hv); try (vm_compute; reflexivity).
  f_equal. apply Hv. vm_compute.
  repeat split; try discriminate; lia.
Defined.

Lemma validate_listing_data_exception_witness :
  TypeError = TypeError /\
  exists v, (Examples.int_title_listing !! str "title" = Some v \/
             Examples.int_title_listing !! str "description" = Some v) /\
            truthy v = true /\ len v = Raise TypeError.
Proof.
  apply (validate_listing_data_exception Examples.int_title_listing TypeError).
  vm_compute. reflexivity.
Defined.

End Listing.

Section ProductInfoValidation.
Import Validation Spec.
Variable float_of_str : text -> option float.
Variable container_error : value -> option exception.

Lemma float_lt_zero (f : float) : Helpers.float_lt_int f 0 = fltb f fzero.
Proof.
  destruct f as [s|s| |s m e]; try done; try by destruct s.
  cbn [Helpers.float_lt_int].
  replace (fltb (S754_finite s m e) fzero) with s by (by destruct s).
  destruct (Z.leb_spec 0 e) as [E|E].
  - assert (0 < 2 ^ e) by (apply Z.pow_pos_nonneg; lia).
    destruct s; [apply Z.ltb_lt|apply Z.ltb_ge]; nia.
  - rewrite Z.mul_0_l. by destruct s.
Qed.

Lemma as_product_lookup (self : ProductInfo.t) :
  Shape.as_product self !! str "name" = Some (VStr (ProductInfo.name self)) /\
  Shape.as_product self !! str "price"
    = Some (match ProductInfo.price self with
            | Helpers.Int z => VInt z
            | Helpers.Float f => VFloat f
            end) /\
  Shape.as_product self !! str "image_path"
    = Some (VStr (ProductInfo.image_path self)) /\
  has_fields product_fields (Shape.as_product self).
Proof.
  unfold Shape.as_product.
  split; [|split; [|split]].
  - rewrite lookup_insert_ne by (vm_compute; discriminate).
    by rewrite lookup_insert_eq.
  - do 2 rewrite lookup_insert_ne by (vm_compute; discriminate).
    by rewrite lookup_insert_eq.
  - do 4 rewrite lookup_insert_ne by (vm_compute; discriminate).
    by rewrite lookup_insert_eq.
  - unfold has_fields, product_fields. cbn [map].
    repeat constructor.
    + by rewrite lookup_insert_eq.
    + rewrite lookup_insert_ne by (vm_compute; discriminate).
      by rewrite lookup_insert_eq.
    + do 2 rewrite lookup_insert_ne by (vm_compute; discriminate).
      by rewrite lookup_insert_eq.
    + do 3 rewrite lookup_insert_ne by (vm_compute; discriminate).
      by rewrite lookup_insert_eq.
    + do 4 rewrite lookup_insert_ne by (vm_compute; discriminate).
      by rewrite lookup_insert_eq.
Qed.

(** A [ProductInfo] whose dictionary passes [validate_product_data] passes
    its own [validate] as well: the dictionary validator is the stricter of
    the two. *)
Theorem validate_product_data_stricter (self : ProductInfo.t) :
  validate_product_data float_of_str container_error (Shape.as_product self)
    = Ok (true, None) ->
  ProductInfo.validate self = true.
Proof.
  destruct (as_product_lookup self) as (Hn & Hp & Hi & Hf).
  unfold validate_product_data. rewrite (first_missing_None _ _ Hf).
  unfold getitem, falsy_or_blank. rewrite Hn, Hp, Hi.
  cbn [mbind exc_bind truthy str_strip_truthy].
  unfold ProductInfo.validate.
  destruct (length (ProductInfo.name self) =? 0)%nat; [done|].
  cbn [negb orb mbind exc_bind].
  destruct (length (strip (ProductInfo.name self)) =? 0)%nat; [done|].
  cbn [negb].
  destruct (ProductInfo.price self) as [z|f]; cbn [float_of Helpers.lt].
  - destruct (float_of_int z) as [g|e] eqn:E; [|by destruct e].
    destruct (fltb g fzero) eqn:Eg; [done|].
    destruct (length (ProductInfo.image_path self) =? 0)%nat; [done|].
    intros _. cbn [orb].
    destruct (z <? 0) eqn:Ez; [|done].
    apply Z.ltb_lt in Ez. rewrite (float_of_int_neg z g Ez E) in Eg. done.
  - rewrite float_lt_zero. destruct (fltb f fzero); [done|].
    by destruct (length (ProductInfo.image_path self) =? 0)%nat.
Qed.

End ProductInfoValidation.

Lemma validate_product_data_stricter_witness :
  ProductInfo.validate Samples.headphones = true.
Proof.
  apply (validate_product_data_stricter Examples.no_str_price
           Examples.no_container).
  vm_compute. reflexivity.
Defined.

(** ** More on the extractors *)

Local Open Scope nat_scope.

Section Located.
Import Re Spec JSONParser Shape.

Lemma match_here_group_free (p : pattern) :
  group_free p = true ->
  forall s opened g r, match_here p s opened g = Some r -> r = g.
Proof.
  induction p as [|i p IH]; intros Hp s opened g r H.
  - cbn in H. congruence.
  - destruct i; cbn [group_free forallb] in Hp; try discriminate;
      specialize (IH Hp).
    + destruct s as [|a s']; cbn [match_here] in H; [discriminate|].
      destruct (a =? c)%N; [eauto|discriminate].
    + revert H. induction s as [|a s' IHs]; rewrite match_here_spaces;
        intros H; [eauto|].
      destruct (isspace a); [|eauto].
      destruct (match_here (Spaces :: p) s' opened g) eqn:E; [|eauto].
      simplify_eq. by apply IHs.
    + revert H. induction s as [|a s' IHs]; rewrite match_here_lazy; intros H.
      * destruct (match_here p [] opened g) eqn:E; [|discriminate].
        simplify_eq. eauto.
      * destruct (match_here p (a :: s') opened g) eqn:E; [|eauto].
        simplify_eq. eauto.
Qed.

Lemma lazy_close_shape (post : pattern) (s : text) :
  group_free post = true ->
  forall pre g r,
  match_here (AnyLazy :: Lit 125%N :: GroupClose :: post) s (pre ++ s) g = Some r ->
  exists b rest, s = b ++ 125%N :: rest /\ r = pre ++ b ++ [125%N].
Proof.
  intros Hp. induction s as [|a s IH]; intros pre g r; rewrite match_here_lazy.
  - cbn [match_here]. discriminate.
  - assert (Hrec : match_here (AnyLazy :: Lit 125%N :: GroupClose :: post) s
                     (pre ++ a :: s) g = Some r ->
                   exists b rest, a :: s = b ++ 125%N :: rest /\ r = pre ++ b ++ [125%N]).
    { intros H. change (pre ++ a :: s) with (pre ++ [a] ++ s) in H.
      rewrite app_assoc in H. apply IH in H as (b & rest & -> & ->).
      exists (a :: b), rest. split; [done|]. by rewrite <- app_assoc. }
    destruct (N.eq_dec a 125%N) as [->|Hne].
    + rewrite match_here_lit, match_here_close.
      destruct (match_here post s _ _) as [r0|] eqn:E; [|exact Hrec].
      intros H. simplify_eq. apply (match_here_group_free _ Hp) in E as ->.
      exists [], s. split; [done|]. cbn [app].
      change (pre ++ 125%N :: s) with (pre ++ [125%N] ++ s).
      rewrite app_assoc, length_app.
      replace (length (pre ++ [125%N]) + length s - length s)
        with (length (pre ++ [125%N])) by lia.
      by rewrite take_app_length.
    + rewrite match_here_lit_ne by done. exact Hrec.
Qed.

Lemma braced_shape (post : pattern) (s opened g r : text) :
  group_free post = true ->
  match_here (braced ++ post) s opened g = Some r ->
  exists b rest, s = (123%N :: b ++ [125%N]) ++ rest /\ r = 123%N :: b ++ [125%N].
Proof.
  intros Hp. unfold braced. cbn [app]. rewrite match_here_open.
  destruct s as [|a s]; [cbn [match_here]; discriminate|].
  destruct (N.eq_dec a 123%N) as [->|Hne];
    [|by rewrite match_here_lit_ne by done].
  rewrite match_here_lit. intros H.
  apply (lazy_close_shape post s Hp [123%N]) in H as (b & rest & -> & ->).
  exists b, rest. split; [|done]. cbn [app]. by rewrite <- app_assoc.
Qed.

Lemma match_here_skip (pre q : pattern) :
  forall s opened g r,
  match_here (pre ++ q) s opened g = Some r ->
  exists s' opened' g', s' `suffix_of` s /\ match_here q s' opened' g' = Some r.
Proof.
  induction pre as [|i pre IH]; intros s opened g r H.
  - by exists s, opened, g.
  - cbn [app] in H. destruct i.
    + destruct s as [|a s']; cbn [match_here] in H; [discriminate|].
      destruct (a =? c)%N; [|discriminate].
      apply IH in H as (s1 & o & g1 & Hs & H). exists s1, o, g1.
      split; [by apply suffix_cons_r|done].
    + revert H. induction s as [|a s' IHs]; rewrite match_here_spaces;
        intros H; [eauto|].
      assert (Hrec : match_here (Spaces :: pre ++ q) s' opened g = Some r ->
                exists s1 o g1, s1 `suffix_of` a :: s' /\ match_here q s1 o g1 = Some r).
      { intros K. apply IHs in K as (s1 & o & g1 & Hs & K). exists s1, o, g1.
        split; [by apply suffix_cons_r|done]. }
      destruct (isspace a); [|eauto].
      destruct (match_here (Spaces :: pre ++ q) s' opened g) eqn:E; [|eauto].
      simplify_eq. by apply Hrec.
    + revert H. induction s as [|a s' IHs]; rewrite match_here_lazy; intros H.
      * destruct (match_here (pre ++ q) [] opened g) eqn:E; [|discriminate].
        simplify_eq. eauto.
      * destruct (match_here (pre ++ q) (a :: s') opened g) eqn:E.
        { simplify_eq. eauto. }
        apply IHs in H as (s1 & o & g1 & Hs & K). exists s1, o, g1.
        split; [by apply suffix_cons_r|done].
    + rewrite match_here_open in H. eauto.
    + rewrite match_here_close in H. eauto.
Qed.

Lemma search_suffix (p : pattern) (t r : text) :
  search p t = Some r ->
  exists s, s `suffix_of` t /\ match_here p s [] [] = Some r.
Proof.
  induction t as [|a t IH]; cbn [search]; intros H.
  - destruct (match_here p [] [] []) eqn:E; [|discriminate].
    simplify_eq. by exists [].
  - destruct (match_here p (a :: t) [] []) eqn:E.
    + simplify_eq. by exists (a :: t).
    + apply IH in H as (s & Hs & H). exists s. split; [by apply suffix_cons_r|done].
Qed.

Lemma search_group (pre post : pattern) (t g : text) :
  group_free post = true ->
  search (pre ++ braced ++ post) t = Some g ->
  in_braces g /\ exists before after, t = before ++ g ++ after.
Proof.
  intros Hp H. apply search_suffix in H as (s & [before ->] & H).
  apply match_here_skip in H as (s' & o & g' & [mid ->] & H).
  apply braced_shape in H as (b & rest & -> & ->); [|done].
  split; [by exists b|]. exists (before ++ mid), rest.
  by rewrite <- !app_assoc.
Qed.

Lemma patterns_group (p : pattern) (t g : text) :
  p ∈ patterns -> search p t = Some g ->
  in_braces g /\ exists before after, t = before ++ g ++ after.
Proof.
  unfold patterns. rewrite !elem_of_cons, elem_of_nil.
  intros [->|[->|[->|[]]]].
  - apply (search_group (lits "```json" ++ [Spaces]) ([Spaces] ++ lits "```")).
    reflexivity.
  - apply (search_group (lits "```" ++ [Spaces]) ([Spaces] ++ lits "```")).
    reflexivity.
  - apply (search_group [] []). reflexivity.
Qed.

Lemma first_match_search (ps : list pattern) (t g : text) :
  first_match ps t = Some g -> exists p, p ∈ ps /\ search p t = Some g.
Proof.
  induction ps as [|p ps IH]; cbn [first_match]; [discriminate|].
  destruct (search p t) as [g'|] eqn:E; intros H.
  - simplify_eq. exists p. split; [left|done].
  - apply IH in H as (q & Hq & H). exists q. split; [by right|done].
Qed.

(** What [extract_from_markdown] returns is a piece of the text: it lies in
    the text in one piece, it starts with an opening brace and it ends with
    a closing brace. *)
Theorem extract_from_markdown_piece (t g : text) :
  extract_from_markdown t = Some g ->
  in_braces g /\ exists before after, t = before ++ g ++ after.
Proof.
  intros H. apply first_match_search in H as (p & Hp & H).
  by apply (patterns_group p).
Qed.

Lemma fence_needs_backtick (p : pattern) (t g : text) :
  96%N ∈ lits_of p -> search p t = Some g -> 96%N ∈ t.
Proof.
  intros Hp H. apply search_sublist in H. by eapply elem_of_sublist.
Qed.

(** In a text without a backtick no fence is found, and
    [extract_from_markdown] returns the text from the first opening brace to
    the first closing brace after it, if there is one. *)
Theorem extract_from_markdown_no_fence (t : text) :
  96%N ∉ t -> extract_from_markdown t = first_to_first t.
Proof.
  intros Ht. unfold extract_from_markdown, patterns. cbn [first_match].
  assert (Hno : forall p, 96%N ∈ lits_of p -> search p t = None).
  { intros p Hp. destruct (search p t) as [g|] eqn:E; [|done].
    destruct Ht. by apply (fence_needs_backtick p t g). }
  rewrite (Hno fenced_json), (Hno fenced), search_braced.
  - by destruct (first_to_first t).
  - apply (bool_decide_unpack _). vm_compute. reflexivity.
  - apply (bool_decide_unpack _). vm_compute. reflexivity.
Qed.

Lemma extract_from_markdown_piece_witness :
  in_braces Examples.object_text /\
  exists before after,
    Samples.prose = before ++ Examples.object_text ++ after.
Proof.
  apply (extract_from_markdown_piece Samples.prose Examples.object_text).
  vm_compute. reflexivity.
Defined.

Lemma extract_from_markdown_no_fence_witness :
  extract_from_markdown Samples.prose = first_to_first Samples.prose.
Proof.
  apply (extract_from_markdown_no_fence Samples.prose).
  apply (bool_decide_unpack _). vm_compute. reflexivity.
Defined.

End Located.

Section Dicts.
Import Json Re Spec JSONParser Shape.
Variable room : nat.

Lemma parse_object_dict (fuel : nat) :
  forall depth s acc v rest,
  parse_object fuel depth s acc = Parsed v rest -> exists d, v = VDict d.
Proof.
  induction fuel as [|fuel IH]; intros depth s acc v rest; cbn [parse_object];
    [discriminate|].
  intros H. repeat case_match; simplify_eq; eauto.
Qed.

Lemma loads_brace_dict (s : text) (v : value) :
  Json.loads room (123%N :: s) = Ok v -> exists d, v = VDict d.
Proof.
  unfold Json.loads, loads_fuel. cbn [starts skip_ws].
  change (65279 =? 123)%N with false. change (is_ws 123%N) with false.
  cbv iota. replace (2 * length (123%N :: s) + 2) with (S (2 * length s + 3))
    by (cbn [length]; lia).
  cbn [scan_once]. change (123 =? 34)%N with false.
  change (123 =? 123)%N with true. cbv iota.
  intros H. repeat case_match; simplify_eq; eauto using parse_object_dict.
Qed.

Lemma try_patterns_value (ps : list pattern) (t : text) (v : value) :
  JSONExtractor.try_patterns room ps t = Ok v ->
  v = VNone \/
  exists p g, p ∈ ps /\ search p t = Some g /\ Json.loads room g = Ok v.
Proof.
  induction ps as [|p ps IH]; cbn [JSONExtractor.try_patterns]; intros H.
  - left. congruence.
  - assert (Hrec : JSONExtractor.try_patterns room ps t = Ok v ->
      v = VNone \/ exists p0 g, p0 ∈ p :: ps /\ search p0 t = Some g
                                /\ Json.loads room g = Ok v).
    { intros K. apply IH in K as [->|(q & g & Hq & K)]; [by left|right].
      exists q, g. split; [by right|done]. }
    destruct (search p t) as [g|] eqn:E; [|auto].
    destruct (Json.loads room g) as [w|e] eqn:F.
    + simplify_eq. right. exists p, g. split; [left|done].
    + destruct e; try discriminate. auto.
Qed.

(** When the text is not JSON by itself, what either extractor makes of it
    is [None] or a dictionary: the located text starts with an opening
    brace, so that it decodes to nothing but an object. *)
Theorem fallback_value_is_dict (t : text) (v : value) :
  Json.loads room t = Raise JSONDecodeError ->
  smart_parse room t = Ok v \/ JSONExtractor.extract room t = Ok v ->
  v = VNone \/ exists d, v = VDict d.
Proof.
  intros Hd [H|H].
  - rewrite smart_parse_eq, Hd in H. cbn [attempt decoded mbind exc_bind truthy] in H.
    cbv iota in H.
    destruct (extract_from_markdown t) as [g|] eqn:E; [|left; congruence].
    apply first_match_search in E as (p & Hp & E).
    apply (patterns_group p) in E as [[b ->] _]; [|done].
    unfold attempt in H.
    destruct (Json.loads room (123%N :: b ++ [125%N])) as [w|e] eqn:F.
    + cbn [decoded mbind exc_bind] in H.
      destruct (truthy w); [|left; congruence].
      simplify_eq. right. by apply (loads_brace_dict (b ++ [125%N])).
    + destruct e; cbn [decoded mbind exc_bind truthy] in H; try discriminate.
      cbv iota in H. left. congruence.
  - unfold JSONExtractor.extract in H. rewrite Hd in H.
    apply try_patterns_value in H as [->|(p & g & Hp & E & F)]; [by left|].
    apply (patterns_group p) in E as [[b ->] _]; [|done].
    right. by apply (loads_brace_dict (b ++ [125%N])).
Qed.

Lemma try_patterns_first (ps : list pattern) (t g : text) (v : value) :
  first_match ps t = Some g -> Json.loads room g = Ok v ->
  JSONExtractor.try_patterns room ps t = Ok v.
Proof.
  induction ps as [|p ps IH]; cbn [first_match JSONExtractor.try_patterns];
    [discriminate|].
  destruct (search p t) as [g'|]; [|done].
  intros H F. simplify_eq. by rewrite F.
Qed.

(** The two extractors agree on what [smart_parse] finds: unless the text
    is itself the JSON of a value that is not truthy, a result of
    [smart_parse] other than [None] is the result of
    [JSONExtractor.extract] too. *)
Theorem extractors_agree (t : text) (v : value) :
  (forall w, Json.loads room t = Ok w -> truthy w = true) ->
  smart_parse room t = Ok v -> v <> VNone ->
  JSONExtractor.extract room t = Ok v.
Proof.
  intros Hd H Hv. rewrite smart_parse_eq in H. unfold JSONExtractor.extract.
  destruct (Json.loads room t) as [w|e] eqn:E.
  - unfold attempt in H. cbn [decoded mbind exc_bind] in H.
    pose proof (Hd w eq_refl) as Hw. rewrite Hw in H.
    destruct w; [cbn in Hw; discriminate|by simplify_eq..].
  - destruct e; unfold attempt in H at 1; cbn [decoded mbind exc_bind] in H;
      try discriminate.
    cbn [truthy] in H. cbv iota in H.
    unfold extract_from_markdown in H.
    destruct (first_match patterns t) as [g|] eqn:F; [|congruence].
    unfold attempt in H.
    destruct (Json.loads room g) as [w|e'] eqn:G.
    + cbn [decoded mbind exc_bind] in H.
      destruct (truthy w); [|congruence].
      simplify_eq. by apply (try_patterns_first _ _ g).
    + destruct e'; cbn [decoded mbind exc_bind truthy] in H; try discriminate.
      cbv iota in H. congruence.
Qed.

(** A flat object in a fenced block tagged [json]: with any white space
    around it, the block is located at once, [JSONExtractor.extract] returns
    what [json.loads] makes of the object alone, and so does [smart_parse]
    when that value is truthy. *)
Theorem tagged_fence_round_trip (ws1 body ws2 : text) (v : value) :
  Forall (fun c => isspace c = true) ws1 ->
  Forall (fun c => isspace c = true) ws2 ->
  125%N ∉ body ->
  Json.loads room (123%N :: body ++ [125%N]) = Ok v ->
  let t := str "```json" ++ ws1 ++ (123%N :: body ++ [125%N]) ++ ws2 ++ str "```" in
  extract_from_markdown t = Some (123%N :: body ++ [125%N]) /\
  JSONExtractor.extract room t = Ok v /\
  (truthy v = true -> smart_parse room t = Ok v).
Proof.
  intros H1 H2 Hb Hv t.
  assert (Hm : first_match patterns t = Some (123%N :: body ++ [125%N])).
  { unfold patterns. cbn [first_match].
    rewrite search_here with (g := 123%N :: body ++ [125%N]); [done|].
    by apply (fenced_match (str "```json") ws1 body ws2). }
  assert (Hd : Json.loads room t = Raise JSONDecodeError) by apply loads_fence.
  split; [exact Hm|]. split.
  - unfold JSONExtractor.extract. rewrite Hd.
    by apply (try_patterns_first _ _ (123%N :: body ++ [125%N])).
  - intros Ht. by apply (smart_parse_located room t (123%N :: body ++ [125%N])).
Qed.

(** What [smart_parse] gives.  It returns [None] exactly when every
    attempt fails, the one on the text and the one on the located text, if
    there is one: [json.loads] rejects it with a [JSONDecodeError] or
    decodes a value that is not truthy.  So it returns [None] for a text on
    which the direct attempt fails and which has no brace-delimited
    substring, or whose located fenced block is rejected.  An exception
    that escapes is one that [json.loads] raises, on the text or on the
    located text, and that is not a [JSONDecodeError]. *)
Theorem smart_parse_outcomes (t : text) :
  (smart_parse room t = Ok VNone <->
   fails (Json.loads room t) /\
   forall g, extract_from_markdown t = Some g -> fails (Json.loads room g)) /\
  (fails (Json.loads room t) -> first_to_first t = None ->
   smart_parse room t = Ok VNone) /\
  (fails (Json.loads room t) ->
   forall g, first_match [fenced_json; fenced] t = Some g ->
   Json.loads room g = Raise JSONDecodeError ->
   smart_parse room t = Ok VNone) /\
  (forall e, smart_parse room t = Raise e ->
     e <> JSONDecodeError /\
     (Json.loads room t = Raise e \/
      exists g, extract_from_markdown t = Some g /\ Json.loads room g = Raise e)).
Proof.
  split; [apply smart_parse_None|]. split; [|split].
  - intros Hd Hn. apply smart_parse_None. split; [done|].
    intros g Hg. rewrite (no_span_no_match _ Hn) in Hg. discriminate.
  - intros Hd g Hg Hbad. apply smart_parse_None. split; [done|].
    intros g' Hg'. rewrite (located_fence _ _ Hg) in Hg'. simplify_eq.
    unfold fails. by rewrite Hbad.
  - intros e. apply smart_parse_Raise.
Qed.

End Dicts.

Lemma smart_parse_outcomes_witness :
  JSONParser.smart_parse Examples.room (str "no json here") = Ok VNone /\
  JSONParser.smart_parse Examples.room Examples.wrapped_garbage = Ok VNone /\
  ValueError <> JSONDecodeError.
Proof.
  split; [|split].
  - apply (smart_parse_outcomes Examples.room (str "no json here"));
      vm_compute; reflexivity.
  - apply (smart_parse_outcomes Examples.room Examples.wrapped_garbage)
      with (g := str "{oops}"); vm_compute; reflexivity.
  - apply (smart_parse_outcomes Examples.room Examples.long_int).
    vm_compute. reflexivity.
Defined.

Lemma fallback_value_is_dict_witness :
  Examples.object_value = VNone \/ exists d, Examples.object_value = VDict d.
Proof.
  apply (fallback_value_is_dict Examples.room Samples.prose).
  - vm_compute. reflexivity.
  - left. vm_compute. reflexivity.
Defined.

Lemma extractors_agree_witness :
  JSONExtractor.extract Examples.room Samples.prose = Ok Examples.object_value.
Proof.
  apply (extractors_agree Examples.room Samples.prose Examples.object_value).
  - intros w H. vm_compute in H. discriminate H.
  - vm_compute. reflexivity.
  - discriminate.
Defined.

Lemma tagged_fence_round_trip_witness :
  JSONExtractor.extract Examples.room Samples.tagged_fence
    = Ok Examples.object_value /\
  JSONParser.smart_parse Examples.room Samples.tagged_fence
    = Ok Examples.object_value.
Proof.
  destruct (tagged_fence_round_trip Examples.room Examples.newline
              Examples.object_body Examples.newline Examples.object_value)
    as (_ & Hx & Hs).
  - repeat constructor.
  - repeat constructor.
  - apply (bool_decide_unpack _). vm_compute. reflexivity.
  - vm_compute. reflexivity.
  - split; [exact Hx|]. apply Hs. reflexivity.
Defined.
